(** * The /api/run route of the daily video automation

    A shallow embedding of the route handler (POST, GET, deriveFromEnv,
    coerceBody, tr, coerceNumber) together with the parts of the run-time it
    leans on: JSON values, string trimming and splitting, async generators
    and the pull-driven ReadableStream.

    A string is its text in UTF-8; the white space recognised by [trim]
    is the ECMAScript WhiteSpace and LineTerminator classes. *)

From Stdlib Require Import List String Ascii Bool Arith ZArith QArith Lia.
Import ListNotations.
Close Scope Q_scope.
Open Scope string_scope.
Open Scope list_scope.
Set Warnings "-register-all".

(* ================================================================= *)
(** ** JavaScript values *)

Module Js.

(** A JS number: the three non-finite doubles, or a finite value. *)
Inductive num : Type :=
| NaN
| PosInfinity
| NegInfinity
| Finite (q : Q).

(** [Number.isFinite(value)] *)
Definition isFinite (v : num) : bool :=
  match v with
  | Finite _ => true
  | _ => false
  end.

(** [value > 0]; every comparison with NaN is false. *)
Definition gt_zero (v : num) : bool :=
  match v with
  | NaN => false
  | PosInfinity => true
  | NegInfinity => false
  | Finite q => (0 <? Qnum q)%Z
  end.

Definition of_Z (z : Z) : num := Finite (inject_Z z).

(** The result of [JSON.parse], or [undefined] for a missing property.
    An object lists each of its keys once. *)
Inductive value : Type :=
| Undefined
| Null
| Bool (b : bool)
| Num (n : num)
| Str (s : string)
| Arr (items : list value)
| Obj (fields : list (string * value)).

Fixpoint lookup (key : string) (fields : list (string * value)) : value :=
  match fields with
  | [] => Undefined
  | (k, v) :: rest => if String.eqb k key then v else lookup key rest
  end.

(** [body?.key] for one of the configuration keys: [undefined] when the
    body is null or undefined, and also when it is a primitive or an
    array, none of which carries such a property. *)
Definition get (body : value) (key : string) : value :=
  match body with
  | Obj fields => lookup key fields
  | _ => Undefined
  end.

(** [Boolean(v)] *)
Definition truthy (v : value) : bool :=
  match v with
  | Undefined | Null => false
  | Bool b => b
  | Num NaN => false
  | Num (Finite q) => negb (Qnum q =? 0)%Z
  | Num _ => true
  | Str s => negb (String.eqb s "")
  | Arr _ | Obj _ => true
  end.

(** *** Strings *)

Definition bytes (codes : list nat) : string :=
  string_of_list_ascii (map ascii_of_nat codes).

(** The white space that [trim] takes off: the code points of the
    WhiteSpace and LineTerminator classes, each in UTF-8.  These are
    U+0009 to U+000D, U+0020, U+00A0, U+1680, U+2000 to U+200A, U+2028,
    U+2029, U+202F, U+205F, U+3000 and U+FEFF. *)
Definition white : list string :=
  map bytes
      [[9]; [10]; [11]; [12]; [13]; [32];
       [194; 160];
       [225; 154; 128];
       [226; 128; 128]; [226; 128; 129]; [226; 128; 130]; [226; 128; 131];
       [226; 128; 132]; [226; 128; 133]; [226; 128; 134]; [226; 128; 135];
       [226; 128; 136]; [226; 128; 137]; [226; 128; 138];
       [226; 128; 168]; [226; 128; 169];
       [226; 128; 175];
       [226; 129; 159];
       [227; 128; 128];
       [239; 187; 191]].

(** What is left of [s] behind [p], when [s] begins with [p]. *)
Fixpoint strip_prefix (p s : string) : option string :=
  match p, s with
  | EmptyString, _ => Some s
  | String a p', String b s' =>
      if Ascii.eqb a b then strip_prefix p' s' else None
  | String _ _, EmptyString => None
  end.

Fixpoint strip_any (ps : list string) (s : string) : option string :=
  match ps with
  | [] => None
  | p :: rest =>
      match strip_prefix p s with
      | Some r => Some r
      | None => strip_any rest s
      end
  end.

(** What is left of [s] behind the white-space character it begins
    with, if it begins with one. *)
Definition strip_white (s : string) : option string := strip_any white s.

(** [s] is one white-space character. *)
Definition is_white (s : string) : bool := existsb (String.eqb s) white.

(** Taking white-space characters off the front, at most [n] of them. *)
Fixpoint trimStart_n (n : nat) (s : string) : string :=
  match n with
  | O => s
  | S k =>
      match strip_white s with
      | Some rest => trimStart_n k rest
      | None => s
      end
  end.

(** [s.trimStart()]; a string has no more characters than bytes. *)
Definition trimStart (s : string) : string := trimStart_n (String.length s) s.

(** [s.trimEnd()]: what is kept of [s] is its first byte and what is kept
    behind it, unless that is one white-space character, which means
    that [s] is white space to its end. *)
Fixpoint trimEnd (s : string) : string :=
  match s with
  | EmptyString => EmptyString
  | String c rest =>
      let kept := String c (trimEnd rest) in
      if is_white kept then EmptyString else kept
  end.

(** [s.trim()] *)
Definition trim (s : string) : string := trimEnd (trimStart s).

Definition comma : ascii := ","%char.
Definition newline : ascii := ascii_of_nat 10.

(** [s.split(",")]: one piece per separator, plus one. *)
Fixpoint split_comma (s : string) : list string :=
  match s with
  | EmptyString => [EmptyString]
  | String c rest =>
      if Ascii.eqb c comma then EmptyString :: split_comma rest
      else match split_comma rest with
           | [] => [String c EmptyString]
           | piece :: pieces => String c piece :: pieces
           end
  end.

Definition is_delim (c : ascii) : bool :=
  Ascii.eqb c comma || Ascii.eqb c newline.

(** [s.split(/[,\n]+/)]: a maximal run of separators counts once.  The
    flag tells that the previous character was a separator, so that the
    rest of its run opens no further piece. *)
Fixpoint split_delims_from (in_run : bool) (s : string) : list string :=
  match s with
  | EmptyString => [EmptyString]
  | String c rest =>
      if is_delim c then
        if in_run then split_delims_from true rest
        else EmptyString :: split_delims_from true rest
      else match split_delims_from false rest with
           | [] => [String c EmptyString]
           | piece :: pieces => String c piece :: pieces
           end
  end.

Definition split_delims (s : string) : list string :=
  split_delims_from false s.

End Js.

(* ================================================================= *)
(** ** Run events (the [RunLog] interface of the status feed) *)

Inductive Status : Type := progress | success | error | info | uploading.

Record RunEvent : Type := {
  id : string;
  status : Status;
  title : string;
  detail : option string;
  timestamp : string;
  meta : option (list (string * Js.value))
}.

(* ================================================================= *)
(** ** Async generators

    The pipeline is consumed only through the generator protocol.  A run
    of a generator body is the finite script of what it does from its
    current point on: start an external stage call and carry on, yield an
    event and suspend, return, or throw. *)

Inductive Stage : Type := Script | Narration | Footage | Render | Publish | Notify.

(** What a [catch] clause receives: an [Error] with its message, or any
    other thrown value. *)
Inductive Thrown : Type :=
| ThrownError (message : string)
| ThrownOther.

Inductive Gen : Type :=
| GYield (event : RunEvent) (rest : Gen)
| GStage (stage : Stage) (rest : Gen)
| GReturn
| GThrow (err : Thrown).

Module Generator.

(** The settled result of [await generator.next()]. *)
Inductive result : Type :=
| Value (value : RunEvent)      (* { value, done: false } *)
| Done                          (* { value: undefined, done: true } *)
| Rejected (err : Thrown).      (* the promise rejects *)

(** [next()] resumes the body up to its next yield.  It answers with the
    result, the stages started on the way and the generator left behind;
    a generator that returned or threw is completed, and a completed
    generator answers done from then on. *)
Fixpoint next (g : Gen) : result * list Stage * Gen :=
  match g with
  | GYield event rest => (Value event, [], rest)
  | GStage stage rest =>
      let '(r, started, g') := next rest in (r, stage :: started, g')
  | GReturn => (Done, [], GReturn)
  | GThrow err => (Rejected err, [], GReturn)
  end.

(** [return(undefined)] on a generator that is suspended at a yield or
    not yet started: the body is abandoned where it stands (a body with a
    [finally] clause would still run that clause; the scripts here have
    none). *)
Definition return_ (g : Gen) : Gen := GReturn.

(** Number of [next()] calls that can still yield. *)
Fixpoint yields (g : Gen) : nat :=
  match g with
  | GYield _ rest => S (yields rest)
  | GStage _ rest => yields rest
  | GReturn | GThrow _ => 0
  end.

(** The events of a run, in the order the body yields them. *)
Fixpoint events (g : Gen) : list RunEvent :=
  match g with
  | GYield event rest => event :: events rest
  | GStage _ rest => events rest
  | GReturn | GThrow _ => []
  end.

(** The stages a run starts when driven to its end. *)
Fixpoint stages (g : Gen) : list Stage :=
  match g with
  | GYield _ rest => stages rest
  | GStage stage rest => stage :: stages rest
  | GReturn | GThrow _ => []
  end.

(** How the body ends: [None] for a return, the thrown value otherwise. *)
Fixpoint outcome (g : Gen) : option Thrown :=
  match g with
  | GYield _ rest | GStage _ rest => outcome rest
  | GReturn => None
  | GThrow err => Some err
  end.

End Generator.

(* ================================================================= *)
(** ** The request type and the schema interface *)

(** The object built by [coerceBody] and [deriveFromEnv].  Both are typed
    [PipelineRunRequest] by a cast only, so the fields are as loose as the
    code that fills them: a credential may be undefined, the tag list may
    hold any JSON value, visibility and preset are plain strings. *)
Record PipelineRunRequest : Type := {
  openaiKey : option string;
  elevenLabsKey : option string;
  pexelsKey : option string;
  youtubeClientId : option string;
  youtubeClientSecret : option string;
  youtubeRefreshToken : option string;
  voiceId : string;
  videoTopic : string;
  targetDurationSeconds : Js.num;
  uploadTitleTemplate : string;
  uploadDescriptionTemplate : string;
  uploadTags : list Js.value;
  visibility : string;
  allowCopyrightAudio : bool;
  preset : string;
  webhookUrl : string;
  runContext : string;
  extraInstructions : string
}.

(** [process.env], restricted to the variables the route reads. *)
Record ProcessEnv : Type := {
  OPENAI_API_KEY : option string;
  ELEVENLABS_API_KEY : option string;
  PEXELS_API_KEY : option string;
  YOUTUBE_CLIENT_ID : option string;
  YOUTUBE_CLIENT_SECRET : option string;
  YOUTUBE_REFRESH_TOKEN : option string;
  PIPELINE_VOICE_ID : option string;
  PIPELINE_DEFAULT_TOPIC : option string;
  PIPELINE_TARGET_DURATION : option string;
  PIPELINE_UPLOAD_TITLE_TEMPLATE : option string;
  PIPELINE_UPLOAD_DESCRIPTION_TEMPLATE : option string;
  PIPELINE_UPLOAD_TAGS : option string;
  PIPELINE_UPLOAD_VISIBILITY : option string;
  PIPELINE_ALLOW_COPY_AUDIO : option string;
  PIPELINE_PRESET : option string;
  PIPELINE_WEBHOOK_URL : option string;
  PIPELINE_RUN_CONTEXT : option string;
  PIPELINE_EXTRA_INSTRUCTIONS : option string
}.

Module Zod.

Record issue : Type := { path : list string; message : string }.

Definition error : Type := list issue.

Inductive result : Type :=
| Success (data : PipelineRunRequest)
| Failure (err : error).

Record flattened : Type := {
  formErrors : list string;
  fieldErrors : list (string * list string)
}.

Fixpoint push_field (field msg : string) (fe : list (string * list string))
  : list (string * list string) :=
  match fe with
  | [] => [(field, [msg])]
  | (f, msgs) :: rest =>
      if String.eqb f field then (f, msgs ++ [msg]) :: rest
      else (f, msgs) :: push_field field msg rest
  end.

Definition flatten_step (acc : flattened) (i : issue) : flattened :=
  match path i with
  | [] => {| formErrors := formErrors acc ++ [message i];
             fieldErrors := fieldErrors acc |}
  | field :: _ => {| formErrors := formErrors acc;
                     fieldErrors := push_field field (message i) (fieldErrors acc) |}
  end.

(** [error.flatten()]: messages without a path go to [formErrors], the
    others are grouped under the first element of their path. *)
Definition flatten (e : error) : flattened :=
  fold_left flatten_step e {| formErrors := []; fieldErrors := [] |}.

End Zod.

Definition default_voice : string := "21m00Tcm4TlvDq8ikWAM".

Definition nl : string := String Js.newline EmptyString.

(** An event-stream message: [`data: ${payload}\n\n`]. *)
Definition sse (payload : string) : string := "data: " ++ payload ++ nl ++ nl.

Definition done_chunk : string := sse "[DONE]".

(* ================================================================= *)
(** ** The stream handed to [new Response] *)

(** The state of the ReadableStream built by POST: the generator its
    [pull] and [cancel] close over, the messages the controller was given
    so far (oldest first), whether the controller was closed, whether the
    consumer cancelled, and a log of the stage calls that [next()] set
    off. *)
Record ReadableStream : Type := {
  generator : Gen;
  enqueued : list string;
  closed : bool;
  cancelled : bool;
  started : list Stage
}.

Inductive ResponseBody : Type :=
| InvalidPayload (message : string) (issues : Zod.flattened)
| StartFailure (message : string)
| CronReport (ok : bool) (message : option string) (events : list RunEvent).

Inductive Response : Type :=
| JsonResponse (body : ResponseBody) (status : nat)
| EventStream (stream : ReadableStream).

(** The calls that the run-time makes to the source of the stream:
    [pull], which it makes by itself, for the first time once the stream
    is constructed and again whenever no message waits in its queue, and
    [cancel], which it makes when the consumer cancels.  A list of them
    is one schedule of calls. *)
Inductive Op : Type := Demand | Cancel.

(** What the consumer of the response body does: read the next message,
    or cancel. *)
Inductive Act : Type := Read | Abort.

(** A stream with its consumer: the stream, the number of messages that
    have left its queue, and the messages the consumer has read, oldest
    first. *)
Record Reader : Type := {
  source : ReadableStream;
  taken : nat;
  received : list string
}.

(* ================================================================= *)
(** ** The route *)

(** [tr]: the trimmed text of a string, undefined when nothing is left or
    when the value is not a string. *)
Definition tr (value : Js.value) : option string :=
  match value with
  | Js.Str s =>
      let trimmed := Js.trim s in
      if (0 <? String.length trimmed)%nat then Some trimmed else None
  | _ => None
  end.

(** [a ?? b] where [a] is a string or undefined. *)
Definition orElse (a : option string) (b : string) : string :=
  match a with
  | Some s => s
  | None => b
  end.

Definition env_value (v : option string) : Js.value :=
  match v with
  | Some s => Js.Str s
  | None => Js.Undefined
  end.

(** What the route takes from outside its own file: the schema and the
    pipeline factory it imports, the built-ins [JSON.stringify] (on
    events) and [Number] (on strings), and what [randomUUID()] and
    [new Date().toISOString()] give when the catch clause of [pull]
    runs.  [createPipeline()(data)] is a call into code that is not the
    route's: [createPipeline] is the generator it returns, and
    [startFailure] is what is thrown instead, by it or by the
    construction of the stream and the response around the generator,
    when starting the run fails. *)
Class Runtime : Type := {
  safeParse : PipelineRunRequest -> Zod.result;
  createPipeline : PipelineRunRequest -> Gen;
  startFailure : PipelineRunRequest -> option Thrown;
  JSON_stringify : RunEvent -> string;
  Number_of_string : string -> Js.num;
  randomUUID : string;
  nowISO : string
}.

Section Route.

Context {runtime : Runtime}.

(** [schema.parse]: the data, or the [ZodError] thrown. *)
Definition parse (input : PipelineRunRequest) : PipelineRunRequest + Zod.error :=
  match safeParse input with
  | Zod.Success data => inl data
  | Zod.Failure err => inr err
  end.

Definition coerceNumber (input : Js.value) (fallback : Js.num) : Js.num :=
  let value :=
    match input with
    | Js.Num n => n
    | Js.Str s => Number_of_string s
    | _ => Js.NaN
    end in
  if Js.isFinite value && Js.gt_zero value then value else fallback.

Definition coerceBody (body : Js.value) : PipelineRunRequest :=
  let tags :=
    match Js.get body "uploadTags" with
    | Js.Arr items => items
    | Js.Str s => map (fun tag => Js.Str (Js.trim tag)) (Js.split_delims s)
    | _ => []
    end in
  {| openaiKey := tr (Js.get body "openaiKey");
     elevenLabsKey := tr (Js.get body "elevenLabsKey");
     pexelsKey := tr (Js.get body "pexelsKey");
     youtubeClientId := tr (Js.get body "youtubeClientId");
     youtubeClientSecret := tr (Js.get body "youtubeClientSecret");
     youtubeRefreshToken := tr (Js.get body "youtubeRefreshToken");
     voiceId := orElse (tr (Js.get body "voiceId")) default_voice;
     videoTopic := orElse (tr (Js.get body "videoTopic")) "Daily AI news round-up";
     targetDurationSeconds :=
       coerceNumber (Js.get body "targetDurationSeconds") (Js.of_Z 120);
     uploadTitleTemplate :=
       orElse (tr (Js.get body "uploadTitleTemplate"))
              "Daily AI Highlights - {{date}}";
     uploadDescriptionTemplate :=
       orElse (tr (Js.get body "uploadDescriptionTemplate"))
              "Automated AI news for {{date}}.";
     uploadTags := tags;
     visibility :=
       match tr (Js.get body "visibility") with
       | Some v =>
           if String.eqb v "private" || String.eqb v "public"
              || String.eqb v "unlisted"
           then v else "unlisted"
       | None => "unlisted"
       end;
     allowCopyrightAudio := Js.truthy (Js.get body "allowCopyrightAudio");
     preset :=
       match tr (Js.get body "preset") with
       | Some p =>
           if String.eqb p "facts" || String.eqb p "longform"
           then p else "news"
       | None => "news"
       end;
     webhookUrl := orElse (tr (Js.get body "webhookUrl")) "";
     runContext := orElse (tr (Js.get body "runContext")) "";
     extraInstructions := orElse (tr (Js.get body "extraInstructions")) "" |}.

(** The object literal that [deriveFromEnv] passes to [schema.parse]. *)
Definition envRequest (env : ProcessEnv) : PipelineRunRequest :=
  let tags :=
    match PIPELINE_UPLOAD_TAGS env with
    | Some s =>
        filter (fun tag => negb (String.eqb tag ""))
               (map Js.trim (Js.split_comma s))
    | None => []
    end in
  {| openaiKey := OPENAI_API_KEY env;
     elevenLabsKey := ELEVENLABS_API_KEY env;
     pexelsKey := PEXELS_API_KEY env;
     youtubeClientId := YOUTUBE_CLIENT_ID env;
     youtubeClientSecret := YOUTUBE_CLIENT_SECRET env;
     youtubeRefreshToken := YOUTUBE_REFRESH_TOKEN env;
     voiceId := orElse (PIPELINE_VOICE_ID env) default_voice;
     videoTopic := orElse (PIPELINE_DEFAULT_TOPIC env) "Daily AI news recap";
     targetDurationSeconds :=
       coerceNumber (env_value (PIPELINE_TARGET_DURATION env)) (Js.of_Z 120);
     uploadTitleTemplate :=
       orElse (PIPELINE_UPLOAD_TITLE_TEMPLATE env) "Daily AI Briefing - {{date}}";
     uploadDescriptionTemplate :=
       orElse (PIPELINE_UPLOAD_DESCRIPTION_TEMPLATE env)
              "Automated summary for {{date}}.";
     uploadTags := map Js.Str tags;
     visibility := orElse (PIPELINE_UPLOAD_VISIBILITY env) "unlisted";
     allowCopyrightAudio :=
       match PIPELINE_ALLOW_COPY_AUDIO env with
       | Some s => String.eqb s "true"
       | None => false
       end;
     preset := orElse (PIPELINE_PRESET env) "news";
     webhookUrl := orElse (PIPELINE_WEBHOOK_URL env) "";
     runContext := orElse (PIPELINE_RUN_CONTEXT env) "";
     extraInstructions := orElse (PIPELINE_EXTRA_INSTRUCTIONS env) "" |}.

Definition deriveFromEnv (env : ProcessEnv) : PipelineRunRequest + Zod.error :=
  parse (envRequest env).

(** *** The stream source of POST *)

Definition enqueue (chunk : string) (s : ReadableStream) : ReadableStream :=
  {| generator := generator s; enqueued := enqueued s ++ [chunk];
     closed := closed s; cancelled := cancelled s; started := started s |}.

Definition close (s : ReadableStream) : ReadableStream :=
  {| generator := generator s; enqueued := enqueued s;
     closed := true; cancelled := cancelled s; started := started s |}.

(** The effect of [await generator.next()] on the stream's generator. *)
Definition resumed (g : Gen) (ran : list Stage) (s : ReadableStream)
  : ReadableStream :=
  {| generator := g; enqueued := enqueued s;
     closed := closed s; cancelled := cancelled s;
     started := started s ++ ran |}.

(** Every event is an object, and objects are truthy. *)
Definition truthy_event (value : RunEvent) : bool := true.

Definition error_message (err : Thrown) (otherwise : string) : string :=
  match err with
  | ThrownError message => message
  | ThrownOther => otherwise
  end.

Definition fatal_event (err : Thrown) : RunEvent :=
  {| id := randomUUID;
     status := error;
     title := "Fatal";
     detail := Some (error_message err "Unknown failure");
     timestamp := nowISO;
     meta := None |}.

Definition pull (s : ReadableStream) : ReadableStream :=
  let '(r, ran, g) := Generator.next (generator s) in
  let s := resumed g ran s in
  match r with
  | Generator.Done => close (enqueue done_chunk s)
  | Generator.Value value =>
      if truthy_event value then enqueue (sse (JSON_stringify value)) s
      else s
  | Generator.Rejected err =>
      close (enqueue (sse (JSON_stringify (fatal_event err))) s)
  end.

Definition cancel (s : ReadableStream) : ReadableStream :=
  {| generator := Generator.return_ (generator s); enqueued := enqueued s;
     closed := closed s; cancelled := cancelled s; started := started s |}.

(** *** The run-time's side of the stream

    The run-time calls the source's [pull] only while the stream is
    readable and [close()] has not been called, and its [cancel] only
    when a stream is cancelled that has not ended.  Calls follow one
    another: the promise of one call has settled before the next call
    is made.  (A cancellation that comes after [close()], while the last
    message still waits, reaches [generator.return] on a generator that
    is completed, where it changes nothing; the model passes it over.) *)
Definition readable (s : ReadableStream) : bool :=
  negb (closed s) && negb (cancelled s).

Definition stream_pull (s : ReadableStream) : ReadableStream :=
  if readable s then pull s else s.

Definition stream_cancel (s : ReadableStream) : ReadableStream :=
  if readable s then
    let s := cancel s in
    {| generator := generator s; enqueued := enqueued s;
       closed := closed s; cancelled := true; started := started s |}
  else s.

Definition stream_op (s : ReadableStream) (op : Op) : ReadableStream :=
  match op with
  | Demand => stream_pull s
  | Cancel => stream_cancel s
  end.

Definition stream_run (ops : list Op) (s : ReadableStream) : ReadableStream :=
  fold_left stream_op ops s.

(** [new ReadableStream({ pull, cancel })] over a fresh generator: the
    stream as the constructor leaves it, before the run-time's first
    call of [pull]. *)
Definition new_stream (g : Gen) : ReadableStream :=
  {| generator := g; enqueued := []; closed := false; cancelled := false;
     started := [] |}.

(** *** The consumer's side of the stream

    POST gives [new ReadableStream] no queuing strategy, so the queue
    has the default high-water mark of 1: the run-time calls [pull] when
    nothing waits in the queue, and not while a message waits.  It does
    so once the stream is constructed and each time the consumer has
    taken a message, so that the source is always asked one message
    ahead of the consumer. *)
Definition waiting (r : Reader) : list string :=
  skipn (taken r) (enqueued (source r)).

Definition call_pull_if_needed (r : Reader) : Reader :=
  match waiting r with
  | [] => {| source := stream_pull (source r); taken := taken r;
             received := received r |}
  | _ :: _ => r
  end.

(** The stream in the hands of its consumer, the first [pull] made. *)
Definition get_reader (s : ReadableStream) : Reader :=
  call_pull_if_needed {| source := s; taken := 0; received := [] |}.

(** [reader.read()] takes the message that waits; with none waiting the
    stream has ended and the read answers [done].  [reader.cancel()]
    drops what waits and cancels the stream. *)
Definition act (r : Reader) (a : Act) : Reader :=
  match a with
  | Read =>
      match waiting r with
      | message :: _ =>
          call_pull_if_needed
            {| source := source r; taken := S (taken r);
               received := received r ++ [message] |}
      | [] => r
      end
  | Abort =>
      {| source := stream_cancel (source r);
         taken := List.length (enqueued (source r));
         received := received r |}
  end.

Definition consume (acts : list Act) (s : ReadableStream) : Reader :=
  fold_left act acts (get_reader s).

(** *** POST

    The argument is the outcome of [await request.json()]: the parsed
    body, or what it threw.  The handler's [catch] clause receives
    whatever the [try] block throws: the failure of [request.json()], and
    a failure on the way from the validated data to the response. *)
Definition start_failed (err : Thrown) : Response :=
  JsonResponse
    (StartFailure (error_message err "Unable to start automation pipeline"))
    500.

Definition POST (request_json : Js.value + Thrown) : Response :=
  match request_json with
  | inr err => start_failed err
  | inl json =>
      let coerced := coerceBody json in
      match safeParse coerced with
      | Zod.Failure err =>
          JsonResponse (InvalidPayload "Invalid payload" (Zod.flatten err)) 422
      | Zod.Success data =>
          match startFailure data with
          | Some err => start_failed err
          | None => EventStream (new_stream (createPipeline data))
          end
      end
  end.

(** *** GET *)

(** [for await (const event of generator) events.push(event)]: the
    events collected, and what the loop threw if it did. *)
Fixpoint for_await (g : Gen) (events : list RunEvent)
  : list RunEvent * option Thrown :=
  match g with
  | GYield event rest => for_await rest (events ++ [event])
  | GStage _ rest => for_await rest events
  | GReturn => (events, None)
  | GThrow err => (events, Some err)
  end.

(** What escapes from GET, whose first two statements stand outside its
    [try] block: the [ZodError] of [deriveFromEnv], or what
    [createPipeline()(defaults)] threw. *)
Inductive Escaped : Type :=
| EscapedZod (err : Zod.error)
| EscapedThrown (err : Thrown).

(** The response, or what escapes from the handler. *)
Definition GET (env : ProcessEnv) : Response + Escaped :=
  match deriveFromEnv env with
  | inr err => inr (EscapedZod err)
  | inl defaults =>
      match startFailure defaults with
      | Some err => inr (EscapedThrown err)
      | None =>
          let generator := createPipeline defaults in
          inl match for_await generator [] with
              | (events, Some err) =>
                  JsonResponse
                    (CronReport false
                       (Some (error_message err
                                "Pipeline failed during cron execution"))
                       events)
                    500
              | (events, None) =>
                  JsonResponse (CronReport true None events) 200
              end
      end
  end.

End Route.

(* ================================================================= *)
(** ** The schema, as far as the specification fixes it *)

Module SpecSchema.

Definition issue_at (field msg : string) : Zod.issue :=
  {| Zod.path := [field]; Zod.message := msg |}.

Definition required (field : string) (v : option string) : list Zod.issue :=
  match v with
  | Some _ => []
  | None => [issue_at field "Required"]
  end.

Definition is_visibility (s : string) : bool :=
  String.eqb s "public" || String.eqb s "unlisted" || String.eqb s "private".

Definition is_preset (s : string) : bool :=
  String.eqb s "news" || String.eqb s "facts" || String.eqb s "longform".

Definition is_string (v : Js.value) : bool :=
  match v with
  | Js.Str _ => true
  | _ => false
  end.

Definition check (ok : bool) (field msg : string) : list Zod.issue :=
  if ok then [] else [issue_at field msg].

(** Modelled from the spec: the checks of [pipelineRequestSchema], field
    by field, in the order of the request's fields. *)
Definition issues (r : PipelineRunRequest) : list Zod.issue :=
  required "openaiKey" (openaiKey r)
  ++ required "elevenLabsKey" (elevenLabsKey r)
  ++ required "pexelsKey" (pexelsKey r)
  ++ required "youtubeClientId" (youtubeClientId r)
  ++ required "youtubeClientSecret" (youtubeClientSecret r)
  ++ required "youtubeRefreshToken" (youtubeRefreshToken r)
  ++ check (Js.isFinite (targetDurationSeconds r)
            && Js.gt_zero (targetDurationSeconds r))
           "targetDurationSeconds" "Number must be greater than 0"
  ++ check (forallb is_string (uploadTags r))
           "uploadTags" "Expected string"
  ++ check (is_visibility (visibility r))
           "visibility" "Invalid enum value"
  ++ check (is_preset (preset r))
           "preset" "Invalid enum value".

(** Modelled from the spec: [pipelineRequestSchema] of [@/lib/schema],
    which the route imports and the sources do not contain.  The data
    model asks for the credential set of each service, a target duration
    above zero, a preset and a visibility from their closed enumerations
    and a list of tags; a request that passes is returned as it is. *)
Definition safeParse (r : PipelineRunRequest) : Zod.result :=
  match issues r with
  | [] => Zod.Success r
  | err => Zod.Failure err
  end.

End SpecSchema.

(* ================================================================= *)
(** ** The conductor, as the specification describes it *)

Module Conductor.

Inductive FailureKind : Type :=
| GenerationFailure | SynthesisFailure | SourcingFailure | RenderFailure
| AuthFailure | QuotaFailure | UploadFailure | NotifyFailure.

(** The three ways the Publish stage can fail. *)
Inductive PublishFailure : Type := BadCredential | RateLimited | Rejected.

Definition publish_kind (k : PublishFailure) : FailureKind :=
  match k with
  | BadCredential => AuthFailure
  | RateLimited => QuotaFailure
  | Rejected => UploadFailure
  end.

Definition kind_name (k : FailureKind) : string :=
  match k with
  | GenerationFailure => "GenerationFailure"
  | SynthesisFailure => "SynthesisFailure"
  | SourcingFailure => "SourcingFailure"
  | RenderFailure => "RenderFailure"
  | AuthFailure => "AuthFailure"
  | QuotaFailure => "QuotaFailure"
  | UploadFailure => "UploadFailure"
  | NotifyFailure => "NotifyFailure"
  end.

Definition stage_name (s : Stage) : string :=
  match s with
  | Script => "Script"
  | Narration => "Narration"
  | Footage => "Footage"
  | Render => "Render"
  | Publish => "Publish"
  | Notify => "Notify"
  end.

(** *** Artifacts *)

Record Segment : Type := { text : string; spoken : Z }.
Definition ScriptArtifact : Type := list Segment.
Record NarrationArtifact : Type := { audio : string; measured : Z }.
Record Clip : Type := { clip : string; runtime : Z; tier : nat }.
Definition FootageSet : Type := list Clip.
Record RenderedVideo : Type := { media : string; final : Z }.
Record PublishResult : Type := {
  videoId : string;
  url : string;
  applied : string;
  finalTitle : string;
  finalDescription : string
}.

Inductive outcome (A F : Type) : Type :=
| Returned (artifact : A)
| Failed (kind : F) (why : string).
Arguments Returned {A F} artifact.
Arguments Failed {A F} kind why.

(** The stage adapters: what each external capability answers. *)
Record Stages : Type := {
  scriptStage : PipelineRunRequest -> outcome ScriptArtifact unit;
  narrationStage :
    PipelineRunRequest -> ScriptArtifact -> outcome NarrationArtifact unit;
  footageStage :
    PipelineRunRequest -> ScriptArtifact -> NarrationArtifact ->
    outcome FootageSet unit;
  renderStage :
    PipelineRunRequest -> NarrationArtifact -> FootageSet ->
    outcome RenderedVideo unit;
  publishStage :
    PipelineRunRequest -> RenderedVideo -> outcome PublishResult PublishFailure;
  notifyStage : PipelineRunRequest -> PublishResult -> outcome unit unit
}.

(** How the generator ends after the terminal error event.  The
    specification says that the sequence ends there; whether the body
    returns or lets the failure escape as an exception is left open, and
    the catch clauses of the route are ready for the latter. *)
Inductive Halt : Type := HaltReturn | HaltThrow.

Definition halted (h : Halt) (why : string) : Gen :=
  match h with
  | HaltReturn => GReturn
  | HaltThrow => GThrow (ThrownError why)
  end.

Definition count (n : nat) : Js.value := Js.Num (Js.of_Z (Z.of_nat n)).
Definition seconds (z : Z) : Js.value := Js.Num (Js.of_Z z).

Section Run.

Variable stages : Stages.
Variable halt : Halt.
(** Identifier and time stamp of the n-th event of the run. *)
Variable ids : nat -> string.
Variable clock : nat -> string.

Definition event (n : nat) (st : Status) (s : Stage)
           (why : option string) (m : option (list (string * Js.value)))
  : RunEvent :=
  {| id := ids n; status := st; title := stage_name s; detail := why;
     timestamp := clock n; meta := m |}.

Definition announce (n : nat) (st : Status) (s : Stage) : RunEvent :=
  event n st s None None.

Definition summary (n : nat) (s : Stage) (key : string) (v : Js.value)
  : RunEvent :=
  event n progress s None (Some [(key, v)]).

Definition failure (n : nat) (s : Stage) (k : FailureKind) (why : string)
  : RunEvent :=
  event n error s (Some why)
        (Some [("stage", Js.Str (stage_name s));
               ("failure", Js.Str (kind_name k))]).

Definition published (n : nat) (r : PublishResult) : RunEvent :=
  event n success Publish None
        (Some [("videoId", Js.Str (videoId r));
               ("url", Js.Str (url r));
               ("visibility", Js.Str (applied r));
               ("title", Js.Str (finalTitle r));
               ("description", Js.Str (finalDescription r))]).

(** Modelled from the spec: the end of a run once Publish has
    returned.  Notify is tried when a webhook is configured, its
    failure is reported and passed over, and the success event, which
    carries the publish result, closes the run. *)
Definition after_publish (cfg : PipelineRunRequest) (r : PublishResult) : Gen :=
  if String.eqb (webhookUrl cfg) "" then GYield (published 9 r) GReturn
  else
    GYield (announce 9 info Notify)
      (GStage Notify
         match notifyStage stages cfg r with
         | Returned _ => GYield (published 10 r) GReturn
         | Failed _ why =>
             GYield (failure 10 Notify NotifyFailure why)
               (GYield (published 11 r) GReturn)
         end).

(** Modelled from the spec: the generator made by [createPipeline] of
    [@/lib/pipeline], which the route imports and the sources do not
    contain.  Stages run in the order Script, Narration, Footage,
    Render, Publish, Notify; each is announced before it starts
    ([uploading] for Publish), its artifact is summarised and handed
    on, and its failure is the last event of the run. *)
Definition run (cfg : PipelineRunRequest) : Gen :=
  GYield (announce 0 info Script) (GStage Script
  match scriptStage stages cfg with
  | Failed _ why => GYield (failure 1 Script GenerationFailure why) (halted halt why)
  | Returned script =>
  GYield (summary 1 Script "segments" (count (List.length script)))
  (GYield (announce 2 info Narration) (GStage Narration
  match narrationStage stages cfg script with
  | Failed _ why => GYield (failure 3 Narration SynthesisFailure why) (halted halt why)
  | Returned narration =>
  GYield (summary 3 Narration "seconds" (seconds (measured narration)))
  (GYield (announce 4 info Footage) (GStage Footage
  match footageStage stages cfg script narration with
  | Failed _ why => GYield (failure 5 Footage SourcingFailure why) (halted halt why)
  | Returned footage =>
  GYield (summary 5 Footage "clips" (count (List.length footage)))
  (GYield (announce 6 info Render) (GStage Render
  match renderStage stages cfg narration footage with
  | Failed _ why => GYield (failure 7 Render RenderFailure why) (halted halt why)
  | Returned video =>
  GYield (summary 7 Render "seconds" (seconds (final video)))
  (GYield (announce 8 uploading Publish) (GStage Publish
  match publishStage stages cfg video with
  | Failed k why => GYield (failure 9 Publish (publish_kind k) why) (halted halt why)
  | Returned result => after_publish cfg result
  end))
  end))
  end))
  end))
  end).

End Run.

(** *** Terminal events *)

Definition failure_tag (e : RunEvent) : option string :=
  match meta e with
  | Some m =>
      match Js.lookup "failure" m with
      | Js.Str k => Some k
      | _ => None
      end
  | None => None
  end.

Definition is_notify_failure (e : RunEvent) : bool :=
  match failure_tag e with
  | Some k => String.eqb k (kind_name NotifyFailure)
  | None => false
  end.

(** A terminal event is the success event or a halting error; the
    report of a Notify failure has status [error] without being one. *)
Definition terminal (e : RunEvent) : bool :=
  match status e with
  | success => true
  | error => negb (is_notify_failure e)
  | _ => false
  end.

(** Publish succeeds on [cfg] with result [r]: every stage up to it
    returns its artifact. *)
Definition publishes (stages : Stages) (cfg : PipelineRunRequest)
           (r : PublishResult) : Prop :=
  exists script narration footage video,
    scriptStage stages cfg = Returned script
    /\ narrationStage stages cfg script = Returned narration
    /\ footageStage stages cfg script narration = Returned footage
    /\ renderStage stages cfg narration footage = Returned video
    /\ publishStage stages cfg video = Returned r.

(** Notify is tried on [cfg] and fails. *)
Definition notify_failed (stages : Stages) (cfg : PipelineRunRequest)
           (r : PublishResult) : Prop :=
  webhookUrl cfg <> "" /\
  exists k why, notifyStage stages cfg r = Failed k why.

End Conductor.

(* ================================================================= *)
(** ** Template expansion, as the specification describes it *)

Module Template.

Definition token : string := "{{date}}".

(** Does [s] start with [p]? *)
Fixpoint starts_with (p s : string) : bool :=
  match p, s with
  | EmptyString, _ => true
  | String a p', String b s' => Ascii.eqb a b && starts_with p' s'
  | String _ _, EmptyString => false
  end.

(** Does the token occur anywhere in [s]? *)
Fixpoint has_token (s : string) : bool :=
  match s with
  | EmptyString => false
  | String _ rest => starts_with token s || has_token rest
  end.

(** Left-to-right replacement of every token by [date]; [skip] counts
    the characters of a token just replaced that are still to be passed
    over. *)
Fixpoint expand_from (skip : nat) (date s : string) : string :=
  match s with
  | EmptyString => EmptyString
  | String c rest =>
      match skip with
      | S k => expand_from k date rest
      | O =>
          if starts_with token s
          then date ++ expand_from (String.length token - 1) date rest
          else String c (expand_from 0 date rest)
      end
  end.

(** Modelled from the spec: the token substitution of the Publish stage
    ([@/lib/pipeline] is not among the sources), which resolves every
    [{{date}}] of a title or description template to the given date. *)
Definition expand (date template : string) : string :=
  expand_from 0 date template.

(** Does the character occur in [s]? *)
Fixpoint occurs (c : ascii) (s : string) : bool :=
  match s with
  | EmptyString => false
  | String x rest => Ascii.eqb c x || occurs c rest
  end.

(** No character of [s] is one of the token's. *)
Fixpoint apart (s : string) : bool :=
  match s with
  | EmptyString => true
  | String c rest => negb (occurs c token) && apart rest
  end.

(** A date text that cannot be taken for a piece of the token: it is not
    empty and shares no character with it. *)
Definition inert (date : string) : bool :=
  negb (String.eqb date "") && apart date.

(** *** The run's current date *)

Definition ms_per_day : Z := 86400000.

(** The day, counted from 1970-01-01, that holds the instant [t] given
    in milliseconds. *)
Definition day_of (t : Z) : Z := (t / ms_per_day)%Z.

(** Year, month and day of the month of a day number. *)
Definition civil (day : Z) : Z * Z * Z :=
  (let z := day + 719468 in
   let era := z / 146097 in
   let doe := z - era * 146097 in
   let yoe := (doe - doe / 1460 + doe / 36524 - doe / 146096) / 365 in
   let doy := doe - (365 * yoe + yoe / 4 - yoe / 100) in
   let mp := (5 * doy + 2) / 153 in
   let d := doy - (153 * mp + 2) / 5 + 1 in
   let m := if mp <? 10 then mp + 3 else mp - 9 in
   let y := yoe + era * 400 in
   (if m <=? 2 then y + 1 else y, m, d))%Z.

Definition digit (z : Z) : ascii := ascii_of_nat (48 + Z.to_nat (z mod 10)).

Definition two_digits (z : Z) : string :=
  String (digit (z / 10)) (String (digit z) EmptyString).

Definition four_digits (z : Z) : string :=
  two_digits (z / 100) ++ two_digits z.

(** A day written as YYYY-MM-DD. *)
Definition iso_date (day : Z) : string :=
  let '(y, m, d) := civil day in
  four_digits y ++ "-" ++ two_digits m ++ "-" ++ two_digits d.

(** Modelled from the spec: expansion during a run whose clock reads
    [t]; the token stands for the run's current date. *)
Definition expand_at (t : Z) (template : string) : string :=
  expand (iso_date (day_of t)) template.

End Template.

(* ================================================================= *)
(** ** Sample instances of the imported parts *)

Module Sample.

Definition quote : string := String (ascii_of_nat 34) EmptyString.

Definition status_name (s : Status) : string :=
  match s with
  | progress => "progress"
  | success => "success"
  | error => "error"
  | info => "info"
  | uploading => "uploading"
  end.

Definition member (key value : string) : string :=
  quote ++ key ++ quote ++ ":" ++ quote ++ value ++ quote.

(** The text of an event whose strings need no escaping and whose
    metadata is left out. *)
Definition stringify (e : RunEvent) : string :=
  "{" ++ member "id" (id e) ++ "," ++ member "status" (status_name (status e))
      ++ "," ++ member "title" (title e) ++ "}".

Fixpoint digits_value (acc : Z) (s : string) : option Z :=
  match s with
  | EmptyString => Some acc
  | String c rest =>
      let n := nat_of_ascii c in
      if (48 <=? n)%nat && (n <=? 57)%nat
      then digits_value (10 * acc + Z.of_nat (n - 48)) rest
      else None
  end.

(** [Number(s)] on strings of decimal digits; anything else is NaN
    here. *)
Definition number (s : string) : Js.num :=
  match digits_value 0 s with
  | Some z => Js.of_Z z
  | None => Js.NaN
  end.

Definition stages_ok : Conductor.Stages :=
  {| Conductor.scriptStage := fun _ =>
       Conductor.Returned [ {| Conductor.text := "Hello"; Conductor.spoken := 60 |} ];
     Conductor.narrationStage := fun _ _ =>
       Conductor.Returned {| Conductor.audio := "blob:a"; Conductor.measured := 60 |};
     Conductor.footageStage := fun _ _ _ =>
       Conductor.Returned [ {| Conductor.clip := "blob:c"; Conductor.runtime := 61;
                               Conductor.tier := 2 |} ];
     Conductor.renderStage := fun _ _ _ =>
       Conductor.Returned {| Conductor.media := "blob:v"; Conductor.final := 60 |};
     Conductor.publishStage := fun _ _ =>
       Conductor.Returned {| Conductor.videoId := "v1"; Conductor.url := "https://y/v1";
                             Conductor.applied := "unlisted";
                             Conductor.finalTitle := "T";
                             Conductor.finalDescription := "D" |};
     Conductor.notifyStage := fun _ _ => Conductor.Failed tt "timeout" |}.

(** A stage set whose Script stage fails. *)
Definition stages_no_script : Conductor.Stages :=
  {| Conductor.scriptStage := fun _ => Conductor.Failed tt "empty content";
     Conductor.narrationStage := Conductor.narrationStage stages_ok;
     Conductor.footageStage := Conductor.footageStage stages_ok;
     Conductor.renderStage := Conductor.renderStage stages_ok;
     Conductor.publishStage := Conductor.publishStage stages_ok;
     Conductor.notifyStage := Conductor.notifyStage stages_ok |}.

(** A generator that yields one event, starts the Script stage and then
    throws. *)
Definition broken (request : PipelineRunRequest) : Gen :=
  GYield {| id := "e0"; status := info; title := "Script"; detail := None;
            timestamp := "t0"; meta := None |}
    (GStage Script (GThrow (ThrownError "socket hang up"))).

(** A generator that yields an event, starts the Script stage, yields a
    second event and returns. *)
Definition brief (request : PipelineRunRequest) : Gen :=
  GYield {| id := "e0"; status := info; title := "Script"; detail := None;
            timestamp := "t0"; meta := None |}
    (GStage Script
       (GYield {| id := "e1"; status := success; title := "Publish";
                  detail := None; timestamp := "t1"; meta := None |}
          GReturn)).

(** A stage set whose refresh credential has expired. *)
Definition stages_expired : Conductor.Stages :=
  {| Conductor.scriptStage := Conductor.scriptStage stages_ok;
     Conductor.narrationStage := Conductor.narrationStage stages_ok;
     Conductor.footageStage := Conductor.footageStage stages_ok;
     Conductor.renderStage := Conductor.renderStage stages_ok;
     Conductor.publishStage := fun _ _ =>
       Conductor.Failed Conductor.BadCredential "invalid_grant";
     Conductor.notifyStage := Conductor.notifyStage stages_ok |}.

Definition tick (n : nat) : string := "t".

Definition ident (n : nat) : string := "e".

(** A body that carries the six credentials and nothing else. *)
Definition credentials : list (string * Js.value) :=
  [("openaiKey", Js.Str "sk"); ("elevenLabsKey", Js.Str "el");
   ("pexelsKey", Js.Str "px"); ("youtubeClientId", Js.Str "id");
   ("youtubeClientSecret", Js.Str "sec"); ("youtubeRefreshToken", Js.Str "rt")].

Definition env_credentials (tags visibility : option string) : ProcessEnv :=
  {| OPENAI_API_KEY := Some "sk"; ELEVENLABS_API_KEY := Some "el";
     PEXELS_API_KEY := Some "px"; YOUTUBE_CLIENT_ID := Some "id";
     YOUTUBE_CLIENT_SECRET := Some "sec"; YOUTUBE_REFRESH_TOKEN := Some "rt";
     PIPELINE_VOICE_ID := None; PIPELINE_DEFAULT_TOPIC := None;
     PIPELINE_TARGET_DURATION := None;
     PIPELINE_UPLOAD_TITLE_TEMPLATE := None;
     PIPELINE_UPLOAD_DESCRIPTION_TEMPLATE := None;
     PIPELINE_UPLOAD_TAGS := tags;
     PIPELINE_UPLOAD_VISIBILITY := visibility;
     PIPELINE_ALLOW_COPY_AUDIO := None; PIPELINE_PRESET := None;
     PIPELINE_WEBHOOK_URL := None; PIPELINE_RUN_CONTEXT := None;
     PIPELINE_EXTRA_INSTRUCTIONS := None |}.

(** Sample bodies: the credentials alone, with a webhook, with a padded
    visibility, without anything but a topic. *)
Definition body_credentials : Js.value := Js.Obj credentials.

Definition body_webhook : Js.value :=
  Js.Obj (("webhookUrl", Js.Str "https://hook.example/run") :: credentials).

Definition body_padded : Js.value :=
  Js.Obj (("visibility", Js.Str " public ") :: credentials).

Definition body_topic : Js.value := Js.Obj [("videoTopic", Js.Str "Chips")].

Definition result_v1 : Conductor.PublishResult :=
  {| Conductor.videoId := "v1"; Conductor.url := "https://y/v1";
     Conductor.applied := "unlisted"; Conductor.finalTitle := "T";
     Conductor.finalDescription := "D" |}.


End Sample.

(** The sample run-time: the schema and the conductor as the specification
    describes them, the sample built-ins, fixed readings of the clock. *)
Definition sample_runtime : Runtime :=
  {| safeParse := SpecSchema.safeParse;
     createPipeline := Conductor.run Sample.stages_ok Conductor.HaltThrow Sample.ident Sample.tick;
     startFailure := fun _ => None;
     JSON_stringify := Sample.stringify;
     Number_of_string := Sample.number;
     randomUUID := "7c9e6679-7425-40de-944b-e07fc1f90ae7";
     nowISO := "2026-11-01T09:00:00.000Z" |}.

(** The same run-time with another pipeline behind [createPipeline]. *)
Definition with_pipeline (rt : Runtime) (factory : PipelineRunRequest -> Gen)
  : Runtime :=
  {| safeParse := @safeParse rt;
     createPipeline := factory;
     startFailure := @startFailure rt;
     JSON_stringify := @JSON_stringify rt;
     Number_of_string := @Number_of_string rt;
     randomUUID := @randomUUID rt;
     nowISO := @nowISO rt |}.

(** The same run-time in which starting a run fails with [err]. *)
Definition failing_start (rt : Runtime) (err : Thrown) : Runtime :=
  {| safeParse := @safeParse rt;
     createPipeline := @createPipeline rt;
     startFailure := fun _ => Some err;
     JSON_stringify := @JSON_stringify rt;
     Number_of_string := @Number_of_string rt;
     randomUUID := @randomUUID rt;
     nowISO := @nowISO rt |}.

(** The sample run-time over a conductor whose Script stage fails. *)
Definition scriptless_runtime (h : Conductor.Halt) : Runtime :=
  with_pipeline sample_runtime
    (Conductor.run Sample.stages_no_script h Sample.ident Sample.tick).

(** The sample run-time over the generator that throws. *)
Definition broken_runtime : Runtime := with_pipeline sample_runtime Sample.broken.

(** The sample run-time over the generator of two events. *)
Definition brief_runtime : Runtime := with_pipeline sample_runtime Sample.brief.

(* ================================================================= *)
(** ** Vocabulary of the statements *)

Section Vocabulary.

Context {runtime : Runtime}.

(** The message that carries one event. *)
Definition chunk (e : RunEvent) : string := sse (JSON_stringify e).

(** The message that ends the stream of a generator. *)
Definition final_chunk (g : Gen) : string :=
  match Generator.outcome g with
  | None => done_chunk
  | Some err => chunk (fatal_event err)
  end.

(** Everything the stream of a generator can ever carry. *)
Definition transcript (g : Gen) : list string :=
  map chunk (Generator.events g) ++ [final_chunk g].

(** The stream after [n] calls of [pull]. *)
Definition drive (n : nat) (s : ReadableStream) : ReadableStream :=
  stream_run (repeat Demand n) s.

(** What comes of a response under a schedule of calls to the source of
    its body: the messages enqueued and the stage calls started. *)
Definition served (r : Response) (ops : list Op) : list string * list Stage :=
  match r with
  | JsonResponse _ _ => ([], [])
  | EventStream s =>
      let s' := stream_run ops s in (enqueued s', started s')
  end.

(** How many messages a stream has been given. *)
Definition message_count (s : ReadableStream) : nat := List.length (enqueued s).

(** The stages started so far are an initial segment of the stages of
    the run [g0], and until a cancellation the rest are those the
    generator still has before it. *)
Definition in_order (g0 : Gen) (s : ReadableStream) : Prop :=
  exists rest,
    Generator.stages g0 = started s ++ rest
    /\ (cancelled s = false -> rest = Generator.stages (generator s)).

(** Once a stream is closed or cancelled its generator is completed. *)
Definition settled (s : ReadableStream) : Prop :=
  readable s = false -> generator s = GReturn.

(** How often the consumer reads. *)
Definition reads (acts : list Act) : nat :=
  List.length (filter (fun a => match a with Read => true | Abort => false end) acts).

(** [n] calls of [next()] in a row: the stages they start and the events
    they give. *)
Fixpoint nexts (n : nat) (g : Gen) : list Stage * list RunEvent :=
  match n with
  | O => ([], [])
  | S k =>
      let '(r, ran, g') := Generator.next g in
      let '(stages, events) := nexts k g' in
      (ran ++ stages,
       match r with
       | Generator.Value e => e :: events
       | _ => events
       end)
  end.

End Vocabulary.

(** The number that the input of [coerceNumber] stands for. *)
Definition reading {runtime : Runtime} (input : Js.value) : Js.num :=
  match input with
  | Js.Num n => n
  | Js.Str s => Number_of_string s
  | _ => Js.NaN
  end.

Definition positive (v : Js.num) : bool := Js.isFinite v && Js.gt_zero v.

(** The issue is about one of the given fields. *)
Definition about (fields : list string) (i : Zod.issue) : bool :=
  match Zod.path i with
  | field :: _ => existsb (String.eqb field) fields
  | [] => false
  end.

(** The fields of a request other than visibility, preset and target
    duration that the schema of the specification can object to. *)
Definition other_fields : list string :=
  ["openaiKey"; "elevenLabsKey"; "pexelsKey"; "youtubeClientId";
   "youtubeClientSecret"; "youtubeRefreshToken"; "uploadTags"].

(** A message of the flattened error is listed under a field. *)
Definition listed (fe : list (string * list string)) (field msg : string) : Prop :=
  exists msgs, In (field, msgs) fe /\ In msg msgs.

(** *** Equivalent raw inputs *)

Definition prop (key : string) (v : option string) : list (string * Js.value) :=
  match v with
  | Some s => [(key, Js.Str s)]
  | None => []
  end.

Definition flag (key : string) (v : option string) : list (string * Js.value) :=
  match v with
  | Some s => [(key, Js.Bool (String.eqb s "true"))]
  | None => []
  end.

(** The request body that carries the settings of an environment: every
    variable that is set becomes the property of the same meaning with the
    same text, the audio flag becomes a JSON boolean, and a variable that
    is not set leaves its property out. *)
Definition as_body (env : ProcessEnv) : Js.value :=
  Js.Obj
    (prop "openaiKey" (OPENAI_API_KEY env)
     ++ prop "elevenLabsKey" (ELEVENLABS_API_KEY env)
     ++ prop "pexelsKey" (PEXELS_API_KEY env)
     ++ prop "youtubeClientId" (YOUTUBE_CLIENT_ID env)
     ++ prop "youtubeClientSecret" (YOUTUBE_CLIENT_SECRET env)
     ++ prop "youtubeRefreshToken" (YOUTUBE_REFRESH_TOKEN env)
     ++ prop "voiceId" (PIPELINE_VOICE_ID env)
     ++ prop "videoTopic" (PIPELINE_DEFAULT_TOPIC env)
     ++ prop "targetDurationSeconds" (PIPELINE_TARGET_DURATION env)
     ++ prop "uploadTitleTemplate" (PIPELINE_UPLOAD_TITLE_TEMPLATE env)
     ++ prop "uploadDescriptionTemplate" (PIPELINE_UPLOAD_DESCRIPTION_TEMPLATE env)
     ++ prop "uploadTags" (PIPELINE_UPLOAD_TAGS env)
     ++ prop "visibility" (PIPELINE_UPLOAD_VISIBILITY env)
     ++ flag "allowCopyrightAudio" (PIPELINE_ALLOW_COPY_AUDIO env)
     ++ prop "preset" (PIPELINE_PRESET env)
     ++ prop "webhookUrl" (PIPELINE_WEBHOOK_URL env)
     ++ prop "runContext" (PIPELINE_RUN_CONTEXT env)
     ++ prop "extraInstructions" (PIPELINE_EXTRA_INSTRUCTIONS env)).

(** A text with no white space at either end. *)
Definition trimmed (s : string) : bool := String.eqb (Js.trim s) s.

(** Trimmed and not empty. *)
Definition tidy (s : string) : bool := trimmed s && negb (String.eqb s "").






(** Settings that name topic and templates and leave the rest to the
    defaults. *)
Definition env_named (tags : option string) : ProcessEnv :=
  {| OPENAI_API_KEY := Some "sk"; ELEVENLABS_API_KEY := Some "el";
     PEXELS_API_KEY := Some "px"; YOUTUBE_CLIENT_ID := Some "id";
     YOUTUBE_CLIENT_SECRET := Some "sec"; YOUTUBE_REFRESH_TOKEN := Some "rt";
     PIPELINE_VOICE_ID := None;
     PIPELINE_DEFAULT_TOPIC := Some "Chip news";
     PIPELINE_TARGET_DURATION := Some "90";
     PIPELINE_UPLOAD_TITLE_TEMPLATE := Some "Daily Briefing - {{date}}";
     PIPELINE_UPLOAD_DESCRIPTION_TEMPLATE := Some "Summary for {{date}}.";
     PIPELINE_UPLOAD_TAGS := tags;
     PIPELINE_UPLOAD_VISIBILITY := Some "private";
     PIPELINE_ALLOW_COPY_AUDIO := Some "true"; PIPELINE_PRESET := Some "facts";
     PIPELINE_WEBHOOK_URL := None; PIPELINE_RUN_CONTEXT := None;
     PIPELINE_EXTRA_INSTRUCTIONS := None |}.

(* ================================================================= *)
(** ** The status feed (status-feed.tsx) *)

Module Feed.

(** A rendered element: its tag, its React key, its classes (what
    [classNames] joins with spaces) and its children; or a text. *)
Inductive Node : Type :=
| Element (tag : string) (key : option string) (classes : list string)
          (children : list Node)
| Text (text : string).

(** An object literal with computed keys, [{ [k1]: f1, [k2]: f2 }]: a
    key that is written again keeps its place and takes the later
    value.  (Class names are not array indices, which an object would
    list first.) *)
Fixpoint set_key (key : string) (flag : bool) (entries : list (string * bool))
  : list (string * bool) :=
  match entries with
  | [] => [(key, flag)]
  | (k, f) :: rest =>
      if String.eqb k key then (k, flag) :: rest
      else (k, f) :: set_key key flag rest
  end.

Definition object_of (entries : list (string * bool)) : list (string * bool) :=
  fold_left (fun acc entry => set_key (fst entry) (snd entry) acc) entries [].

(** [classNames(base, { name: flag, ... })]: the base class and the keys
    of the object whose flag holds, in the order of the keys, empty
    names passed over. *)
Definition classNames (base : string) (flags : list (string * bool)) : list string :=
  filter (fun name => negb (String.eqb name ""))
         (base :: map fst (filter snd (object_of flags))).

(** The name under which a status is styled. *)
Definition status_class (s : Status) : string :=
  match s with
  | progress => "progress"
  | success => "success"
  | error => "error"
  | info => "info"
  | uploading => "uploading"
  end.

Definition is_status (a b : Status) : bool :=
  String.eqb (status_class a) (status_class b).

Section Render.

(** [styles], the object that [status-feed.module.css] exports: the class
    name it gives for each of the names the component uses. *)
Variable styles : string -> string.

(** [formatTime], which goes through [Date] and the locale of the
    browser, and [JSON.stringify(meta, null, 2)]. *)
Variable formatTime : string -> string.
Variable show_meta : list (string * Js.value) -> string.

Definition badge (active : bool) : Node :=
  Element "span" None
          (classNames (styles "badge")
             [(styles "running", active); (styles "idle", negb active)])
          [Text (if active then "running" else "idle")].

Definition pip (log : RunEvent) : Node :=
  Element "span" None
          (classNames (styles "pip")
             [(styles "success", is_status (status log) success);
              (styles "error", is_status (status log) error);
              (styles "progress", is_status (status log) progress);
              (styles "info", is_status (status log) info);
              (styles "uploading", is_status (status log) uploading)])
          [].

(** [{log.detail ? <p>{log.detail}</p> : null}] *)
Definition detail_part (log : RunEvent) : list Node :=
  match detail log with
  | Some d => if String.eqb d "" then [] else [Element "p" None [] [Text d]]
  | None => []
  end.

(** [{log.meta ? <pre ...>{JSON.stringify(log.meta, null, 2)}</pre> : null}] *)
Definition meta_part (log : RunEvent) : list Node :=
  match meta log with
  | Some m => [Element "pre" None [styles "meta"] [Text (show_meta m)]]
  | None => []
  end.

Definition row (log : RunEvent) : Node :=
  Element "article" (Some (id log)) [styles "row"]
    [pip log;
     Element "div" None []
       ([Element "div" None [styles "rowHeader"]
           [Element "strong" None [] [Text (title log)];
            Element "time" None [] [Text (formatTime (timestamp log))]]]
        ++ detail_part log ++ meta_part log)].

Definition StatusFeed (logs : list RunEvent) (active : bool) : Node :=
  Element "div" None [styles "wrapper"]
    [Element "header" None []
       [Element "h2" None [] [Text "Status Stream"]; badge active];
     Element "div" None [styles "feed"] (map row logs)].

End Render.

(** *** Reading a rendered tree *)

Definition children_of (n : Node) : list Node :=
  match n with
  | Element _ _ _ children => children
  | Text _ => []
  end.

Definition key_of (n : Node) : option string :=
  match n with
  | Element _ key _ _ => key
  | Text _ => None
  end.

Definition classes_of (n : Node) : list string :=
  match n with
  | Element _ _ classes _ => classes
  | Text _ => []
  end.

Definition tag_of (n : Node) : string :=
  match n with
  | Element tag _ _ _ => tag
  | Text _ => ""
  end.

(** The rows of a rendered feed: the children of its second child. *)
Definition rows_of (feed : Node) : list Node :=
  children_of (nth 1 (children_of feed) (Text "")).

(** The parts of a rendered row below its header line. *)
Definition parts_of (r : Node) : list Node :=
  tl (children_of (nth 1 (children_of r) (Text ""))).

Definition has_tag (tag : string) (nodes : list Node) : bool :=
  existsb (fun n => String.eqb (tag_of n) tag) nodes.

End Feed.

(* ================================================================= *)
(** ** The tag field of the configurator (pipeline-configurator.tsx) *)

Module Configurator.

(** [Boolean(tag)] on a string. *)
Definition nonblank (tag : string) : bool := negb (String.eqb tag "").

(** The list that [handleTagInput] hands to [setValue("uploadTags", ...)]:
    [input.split(tagDelimiter).map((tag) => tag.trim()).filter(Boolean)]. *)
Definition handleTagInput (input : string) : list string :=
  filter nonblank (map Js.trim (Js.split_delims input)).

(** [items.join(sep)] *)
Fixpoint join (sep : string) (items : list string) : string :=
  match items with
  | [] => EmptyString
  | [item] => item
  | item :: rest => item ++ sep ++ join sep rest
  end.

(** The value of the Tags text area:
    [(formValue.uploadTags ?? []).join(", ")]. *)
Definition tagsValue (uploadTags : option (list string)) : string :=
  join ", " match uploadTags with
            | Some tags => tags
            | None => []
            end.

End Configurator.

(* ================================================================= *)
(** ** Further vocabulary *)

(** Every character of [s] passes [p]. *)
Fixpoint all_chars (p : ascii -> bool) (s : string) : bool :=
  match s with
  | EmptyString => true
  | String c rest => p c && all_chars p rest
  end.

(** Nothing but white-space characters, one after the other. *)
Inductive Blank : string -> Prop :=
| Blank_empty : Blank EmptyString
| Blank_more (p rest : string) :
    In p Js.white -> Blank rest -> Blank (p ++ rest).

(** The same as a test: nothing is left behind the white space at the
    front. *)
Definition blank (s : string) : bool := String.eqb (Js.trimStart s) "".

(** Neither comma nor newline. *)
Definition no_delim (s : string) : bool :=
  all_chars (fun c => negb (Js.is_delim c)) s.

Definition no_comma (s : string) : bool :=
  all_chars (fun c => negb (Ascii.eqb c Js.comma)) s.

(** [s] does not begin with a white-space character. *)
Definition starts_clean (s : string) : bool :=
  match Js.strip_white s with
  | Some _ => false
  | None => true
  end.

(** Does [s] end with [p]? *)
Fixpoint ends_with (p s : string) : bool :=
  String.eqb p s
  || match s with
     | EmptyString => false
     | String _ rest => ends_with p rest
     end.

(** [s] does not end with a white-space character. *)
Definition ends_clean (s : string) : bool :=
  negb (existsb (fun p => ends_with p s) Js.white).

(** A tag as the parsers leave it: trimmed, not empty, without a
    separator inside. *)
Definition clean_tag (tag : string) : bool := tidy tag && no_delim tag.

Definition is_object (v : Js.value) : bool :=
  match v with
  | Js.Obj _ => true
  | _ => false
  end.

(** The JSON body that carries a request, as [JSON.stringify] writes it
    and [JSON.parse] reads it back: a property per field, a credential
    that is undefined left out. *)
Definition request_body (r : PipelineRunRequest) : Js.value :=
  Js.Obj
    (prop "openaiKey" (openaiKey r)
     ++ prop "elevenLabsKey" (elevenLabsKey r)
     ++ prop "pexelsKey" (pexelsKey r)
     ++ prop "youtubeClientId" (youtubeClientId r)
     ++ prop "youtubeClientSecret" (youtubeClientSecret r)
     ++ prop "youtubeRefreshToken" (youtubeRefreshToken r)
     ++ [("voiceId", Js.Str (voiceId r));
         ("videoTopic", Js.Str (videoTopic r));
         ("targetDurationSeconds", Js.Num (targetDurationSeconds r));
         ("uploadTitleTemplate", Js.Str (uploadTitleTemplate r));
         ("uploadDescriptionTemplate", Js.Str (uploadDescriptionTemplate r));
         ("uploadTags", Js.Arr (uploadTags r));
         ("visibility", Js.Str (visibility r));
         ("allowCopyrightAudio", Js.Bool (allowCopyrightAudio r));
         ("preset", Js.Str (preset r));
         ("webhookUrl", Js.Str (webhookUrl r));
         ("runContext", Js.Str (runContext r));
         ("extraInstructions", Js.Str (extraInstructions r))]).

(** The request that [coerceBody] builds when the body has none of the
    properties it reads. *)
Definition fallback_request : PipelineRunRequest :=
  {| openaiKey := None; elevenLabsKey := None; pexelsKey := None;
     youtubeClientId := None; youtubeClientSecret := None;
     youtubeRefreshToken := None;
     voiceId := default_voice;
     videoTopic := "Daily AI news round-up";
     targetDurationSeconds := Js.of_Z 120;
     uploadTitleTemplate := "Daily AI Highlights - {{date}}";
     uploadDescriptionTemplate := "Automated AI news for {{date}}.";
     uploadTags := [];
     visibility := "unlisted";
     allowCopyrightAudio := false;
     preset := "news";
     webhookUrl := ""; runContext := ""; extraInstructions := "" |}.

Definition is_str (p : string -> bool) (v : Js.value) : bool :=
  match v with
  | Js.Str s => p s
  | _ => false
  end.

(** An environment in which only the audio flag is set. *)
Definition env_flag (v : string) : ProcessEnv :=
  {| OPENAI_API_KEY := None; ELEVENLABS_API_KEY := None;
     PEXELS_API_KEY := None; YOUTUBE_CLIENT_ID := None;
     YOUTUBE_CLIENT_SECRET := None; YOUTUBE_REFRESH_TOKEN := None;
     PIPELINE_VOICE_ID := None; PIPELINE_DEFAULT_TOPIC := None;
     PIPELINE_TARGET_DURATION := None;
     PIPELINE_UPLOAD_TITLE_TEMPLATE := None;
     PIPELINE_UPLOAD_DESCRIPTION_TEMPLATE := None;
     PIPELINE_UPLOAD_TAGS := None; PIPELINE_UPLOAD_VISIBILITY := None;
     PIPELINE_ALLOW_COPY_AUDIO := Some v; PIPELINE_PRESET := None;
     PIPELINE_WEBHOOK_URL := None; PIPELINE_RUN_CONTEXT := None;
     PIPELINE_EXTRA_INSTRUCTIONS := None |}.

(** An environment in which only a key and the topic are set. *)
Definition env_blank (key topic : string) : ProcessEnv :=
  {| OPENAI_API_KEY := Some key; ELEVENLABS_API_KEY := None;
     PEXELS_API_KEY := None; YOUTUBE_CLIENT_ID := None;
     YOUTUBE_CLIENT_SECRET := None; YOUTUBE_REFRESH_TOKEN := None;
     PIPELINE_VOICE_ID := None; PIPELINE_DEFAULT_TOPIC := Some topic;
     PIPELINE_TARGET_DURATION := None;
     PIPELINE_UPLOAD_TITLE_TEMPLATE := None;
     PIPELINE_UPLOAD_DESCRIPTION_TEMPLATE := None;
     PIPELINE_UPLOAD_TAGS := None; PIPELINE_UPLOAD_VISIBILITY := None;
     PIPELINE_ALLOW_COPY_AUDIO := None; PIPELINE_PRESET := None;
     PIPELINE_WEBHOOK_URL := None; PIPELINE_RUN_CONTEXT := None;
     PIPELINE_EXTRA_INSTRUCTIONS := None |}.

(* ================================================================= *)
(** * Properties *)

(* ================================================================= *)
(** ** Generators and the stream built on them *)

Section StreamFacts.

Context {runtime : Runtime}.

Lemma next_value (g : Gen) (e : RunEvent) (ran : list Stage) (g' : Gen) :
  Generator.next g = (Generator.Value e, ran, g') ->
  Generator.events g = e :: Generator.events g'
  /\ Generator.yields g = S (Generator.yields g')
  /\ Generator.outcome g = Generator.outcome g'
  /\ Generator.stages g = ran ++ Generator.stages g'.
Proof.
  revert ran.
  induction g as [e0 rest _ | st rest IH | | err]; simpl; intros ran H.
  - inversion H; subst. auto.
  - destruct (Generator.next rest) as [[r ran'] g''] eqn:E.
    inversion H; subst.
    destruct (IH ran' eq_refl) as (He & Hy & Ho & Hs).
    rewrite He, Hy, Ho, Hs. auto.
  - discriminate.
  - discriminate.
Qed.

Lemma next_done (g : Gen) (ran : list Stage) (g' : Gen) :
  Generator.next g = (Generator.Done, ran, g') ->
  Generator.events g = [] /\ Generator.yields g = 0
  /\ Generator.outcome g = None /\ Generator.stages g = ran /\ g' = GReturn.
Proof.
  revert ran.
  induction g as [e0 rest _ | st rest IH | | err]; simpl; intros ran H.
  - discriminate.
  - destruct (Generator.next rest) as [[r ran'] g''] eqn:E.
    inversion H; subst.
    destruct (IH ran' eq_refl) as (He & Hy & Ho & Hs & Hg).
    rewrite He, Hy, Ho, Hs. auto.
  - inversion H; subst. auto.
  - discriminate.
Qed.

Lemma next_rejected (g : Gen) (err : Thrown) (ran : list Stage) (g' : Gen) :
  Generator.next g = (Generator.Rejected err, ran, g') ->
  Generator.events g = [] /\ Generator.yields g = 0
  /\ Generator.outcome g = Some err /\ Generator.stages g = ran /\ g' = GReturn.
Proof.
  revert ran.
  induction g as [e0 rest _ | st rest IH | | err0]; simpl; intros ran H.
  - discriminate.
  - destruct (Generator.next rest) as [[r ran'] g''] eqn:E.
    inversion H; subst.
    destruct (IH ran' eq_refl) as (He & Hy & Ho & Hs & Hg).
    rewrite He, Hy, Ho, Hs. auto.
  - discriminate.
  - inversion H; subst. auto.
Qed.

Lemma nexts_completed (n : nat) : nexts n GReturn = ([], []).
Proof.
  induction n as [| n IH]; simpl; [reflexivity |].
  rewrite IH. reflexivity.
Qed.

Lemma stream_run_app (ops1 ops2 : list Op) (s : ReadableStream) :
  stream_run (ops1 ++ ops2) s = stream_run ops2 (stream_run ops1 s).
Proof. unfold stream_run. apply fold_left_app. Qed.

(** A stream that is closed or cancelled answers no call. *)
Lemma stream_run_settled (ops : list Op) (s : ReadableStream) :
  readable s = false -> stream_run ops s = s.
Proof.
  intros H. induction ops as [| op ops IH]; simpl; [reflexivity |].
  assert (Hop : stream_op s op = s).
  { destruct op; simpl; unfold stream_pull, stream_cancel; rewrite H; reflexivity. }
  unfold stream_run in *. simpl. rewrite Hop. exact IH.
Qed.

Lemma drive_S (n : nat) (s : ReadableStream) :
  drive (S n) s = drive n (stream_pull s).
Proof. reflexivity. Qed.

(** The state of a readable stream after [n] calls of [pull]. *)
Lemma drive_readable (n : nat) :
  forall (g : Gen) (q : list string) (st : list Stage),
    let s := {| generator := g; enqueued := q; closed := false;
                cancelled := false; started := st |} in
    enqueued (drive n s) = q ++ firstn n (transcript g)
    /\ closed (drive n s) = (Generator.yields g <? n)%nat
    /\ cancelled (drive n s) = false
    /\ started (drive n s) = st ++ fst (nexts n g).
Proof.
  induction n as [| n IH]; intros g q st s.
  - subst s. simpl. rewrite !app_nil_r. auto.
  - rewrite drive_S. subst s.
    unfold stream_pull, readable; cbn [closed cancelled negb andb].
    unfold pull; cbn [generator].
    destruct (Generator.next g) as [[r ran] g'] eqn:E.
    cbn [nexts]. rewrite E.
    destruct (nexts n g') as [later evs] eqn:En.
    destruct r as [e | | err].
    + apply next_value in E. destruct E as (He & Hy & Ho & _).
      unfold truthy_event, enqueue, resumed;
        cbn [generator enqueued closed cancelled started].
      fold (chunk e).
      destruct (IH g' (q ++ [chunk e]) (st ++ ran)) as (Hq & Hc & Hx & Hs).
      rewrite Hq, Hc, Hx, Hs, En.
      assert (Ht : transcript g = chunk e :: transcript g').
      { unfold transcript, final_chunk. rewrite He, Ho. reflexivity. }
      rewrite Ht, Hy. cbn [firstn fst].
      rewrite <- !app_assoc. auto.
    + apply next_done in E. destruct E as (He & Hy & Ho & _ & Hg). subst g'.
      unfold drive. rewrite stream_run_settled by reflexivity.
      unfold close, enqueue, resumed;
        cbn [generator enqueued closed cancelled started].
      rewrite nexts_completed in En. inversion En; subst.
      assert (Ht : transcript g = [done_chunk]).
      { unfold transcript, final_chunk. rewrite He, Ho. reflexivity. }
      rewrite Ht, Hy. cbn [firstn fst]. rewrite firstn_nil, app_nil_r. auto.
    + apply next_rejected in E. destruct E as (He & Hy & Ho & _ & Hg). subst g'.
      unfold drive. rewrite stream_run_settled by reflexivity.
      unfold close, enqueue, resumed;
        cbn [generator enqueued closed cancelled started].
      rewrite nexts_completed in En. inversion En; subst.
      assert (Ht : transcript g = [chunk (fatal_event err)]).
      { unfold transcript, final_chunk. rewrite He, Ho. reflexivity. }
      rewrite Ht, Hy. cbn [firstn fst]. rewrite firstn_nil, app_nil_r. auto.
Qed.

Lemma transcript_length (g : Gen) :
  List.length (transcript g) = S (Generator.yields g).
Proof.
  unfold transcript. rewrite length_app, length_map. simpl.
  assert (H : List.length (Generator.events g) = Generator.yields g).
  { induction g; simpl; auto. }
  rewrite H. lia.
Qed.

(** Enough requests drain the stream: it then holds the whole transcript
    and is closed. *)
Lemma drive_drained (g : Gen) (n : nat) :
  Generator.yields g < n ->
  enqueued (drive n (new_stream g)) = transcript g
  /\ closed (drive n (new_stream g)) = true
  /\ started (drive n (new_stream g)) = fst (nexts n g).
Proof.
  intros Hn.
  destruct (drive_readable n g [] []) as (Hq & Hc & _ & Hs).
  unfold new_stream. rewrite Hq, Hc, Hs. simpl.
  rewrite firstn_all2 by (rewrite transcript_length; lia).
  repeat split. apply Nat.ltb_lt. exact Hn.
Qed.

Lemma settled_op (s : ReadableStream) (op : Op) :
  settled s -> settled (stream_op s op).
Proof.
  unfold settled. intros Hs.
  destruct op; simpl; unfold stream_pull, stream_cancel;
    destruct (readable s) eqn:R; auto.
  - unfold pull.
    destruct (Generator.next (generator s)) as [[r ran] g'] eqn:E.
    destruct r as [e | | err]; simpl.
    + unfold readable in *. simpl. intros H. rewrite R in H. discriminate.
    + apply next_done in E. intros _. apply E.
    + apply next_rejected in E. intros _. apply E.
Qed.

Lemma settled_run (ops : list Op) (s : ReadableStream) :
  settled s -> settled (stream_run ops s).
Proof.
  revert s. induction ops as [| op ops IH]; intros s Hs; [exact Hs |].
  unfold stream_run in *. simpl. apply IH. apply settled_op. exact Hs.
Qed.

Lemma cancel_unreadable (s : ReadableStream) :
  readable (stream_cancel s) = false.
Proof.
  unfold stream_cancel. destruct (readable s) eqn:R; [| exact R].
  unfold readable. simpl. apply andb_false_r.
Qed.

(** Cancelling starts no stage and enqueues nothing. *)
Lemma cancel_quiet (s : ReadableStream) :
  started (stream_cancel s) = started s
  /\ enqueued (stream_cancel s) = enqueued s.
Proof. unfold stream_cancel. destruct (readable s); auto. Qed.

(** After a cancellation nothing moves any more. *)
Lemma cancel_is_final (g : Gen) (before after : list Op) :
  let s := stream_run (before ++ [Cancel]) (new_stream g) in
  stream_run after s = s
  /\ generator s = GReturn
  /\ started s = started (stream_run before (new_stream g))
  /\ enqueued s = enqueued (stream_run before (new_stream g)).
Proof.
  intros s. subst s. rewrite stream_run_app. simpl.
  set (s0 := stream_run before (new_stream g)).
  assert (Hr := cancel_unreadable s0).
  assert (Hs : settled (stream_cancel s0)).
  { apply (settled_op s0 Cancel). apply settled_run.
    unfold settled, readable. simpl. discriminate. }
  destruct (cancel_quiet s0) as (H1 & H2).
  repeat split; auto.
  apply stream_run_settled. exact Hr.
Qed.

Lemma in_order_op (g0 : Gen) (s : ReadableStream) (op : Op) :
  in_order g0 s -> in_order g0 (stream_op s op).
Proof.
  intros (rest & Hst & Hrest).
  destruct op; simpl; unfold stream_pull, stream_cancel;
    destruct (readable s) eqn:R; try (exists rest; auto; fail).
  - unfold readable in R. apply andb_prop in R. destruct R as (_ & Rc).
    apply negb_true_iff in Rc. specialize (Hrest Rc). subst rest.
    unfold pull.
    destruct (Generator.next (generator s)) as [[r ran] g'] eqn:E.
    exists (Generator.stages g').
    destruct r as [e | | err].
    + apply next_value in E. destruct E as (_ & _ & _ & Hs).
      unfold truthy_event, enqueue, resumed;
        cbn [generator enqueued closed cancelled started].
      rewrite Hst, Hs, app_assoc. auto.
    + apply next_done in E. destruct E as (_ & _ & _ & Hs & ->).
      unfold close, enqueue, resumed;
        cbn [generator enqueued closed cancelled started].
      rewrite Hst, <- Hs. simpl. rewrite app_nil_r. auto.
    + apply next_rejected in E. destruct E as (_ & _ & _ & Hs & ->).
      unfold close, enqueue, resumed;
        cbn [generator enqueued closed cancelled started].
      rewrite Hst, <- Hs. simpl. rewrite app_nil_r. auto.
  - exists rest. unfold cancel; cbn [generator enqueued closed cancelled started].
    split; [exact Hst | discriminate].
Qed.

(** However a stream is operated, the stages start in the order of the
    run, none skipped. *)
Lemma in_order_run (g : Gen) (ops : list Op) :
  in_order g (stream_run ops (new_stream g)).
Proof.
  assert (H0 : in_order g (new_stream g)).
  { exists (Generator.stages g). split; [reflexivity | auto]. }
  revert H0. generalize (new_stream g).
  induction ops as [| op ops IH]; intros s Hs; [exact Hs |].
  unfold stream_run in *. simpl. apply IH. apply in_order_op. exact Hs.
Qed.

Lemma drive_tail (n : nat) (s : ReadableStream) :
  drive (S n) s = stream_pull (drive n s).
Proof.
  unfold drive. change (repeat Demand (S n)) with (Demand :: repeat Demand n).
  rewrite repeat_cons, stream_run_app. reflexivity.
Qed.

(** Calling [next()] more often than the generator yields starts all its
    stages and collects all its events. *)
Lemma nexts_all (n : nat) :
  forall g, Generator.yields g < n ->
            nexts n g = (Generator.stages g, Generator.events g).
Proof.
  induction n as [| n IH]; intros g Hn; [lia |].
  cbn [nexts]. destruct (Generator.next g) as [[r ran] g'] eqn:E.
  destruct r as [e | | err].
  - apply next_value in E. destruct E as (He & Hy & _ & Hs).
    rewrite (IH g' ltac:(lia)), He, Hs. reflexivity.
  - apply next_done in E. destruct E as (He & _ & _ & Hs & ->).
    rewrite nexts_completed, He, Hs, app_nil_r. reflexivity.
  - apply next_rejected in E. destruct E as (He & _ & _ & Hs & ->).
    rewrite nexts_completed, He, Hs, app_nil_r. reflexivity.
Qed.

(** The stream of a fresh generator after [n] calls of [pull]. *)
Lemma drive_new (n : nat) (g : Gen) :
  enqueued (drive n (new_stream g)) = firstn n (transcript g)
  /\ closed (drive n (new_stream g)) = (Generator.yields g <? n)%nat
  /\ cancelled (drive n (new_stream g)) = false
  /\ started (drive n (new_stream g)) = fst (nexts n g).
Proof. exact (drive_readable n g [] []). Qed.

(** Where a stream stands after any calls: at some number [n] of
    answered calls of [pull]. *)
Lemma stream_trace (g : Gen) (ops : list Op) :
  exists n,
    n <= List.length ops
    /\ enqueued (stream_run ops (new_stream g)) = firstn n (transcript g)
    /\ started (stream_run ops (new_stream g)) = fst (nexts n g)
    /\ (readable (stream_run ops (new_stream g)) = true ->
        stream_run ops (new_stream g) = drive n (new_stream g))
    /\ (closed (stream_run ops (new_stream g)) = true -> Generator.yields g < n).
Proof.
  induction ops as [| op ops IH] using rev_ind.
  - exists 0. cbn. repeat split; auto; discriminate.
  - rewrite stream_run_app. cbn [stream_run fold_left].
    fold (stream_run ops (new_stream g)).
    destruct IH as (n & Hn & Hq & Hs & Hr & Hc).
    rewrite length_app. cbn [List.length].
    destruct (readable (stream_run ops (new_stream g))) eqn:R.
    + specialize (Hr eq_refl). destruct op; cbn [stream_op].
      * exists (S n). rewrite Hr, <- drive_tail.
        destruct (drive_readable (S n) g [] []) as (Dq & Dc & _ & Ds).
        unfold new_stream. rewrite Dq, Dc, Ds.
        split; [lia |]. split; [reflexivity |]. split; [reflexivity |].
        split; [reflexivity |]. intros H. apply Nat.ltb_lt. exact H.
      * exists n. unfold stream_cancel. rewrite R.
        unfold cancel, readable in *;
          cbn [generator enqueued closed cancelled started] in *.
        split; [lia |]. split; [exact Hq |]. split; [exact Hs |].
        split; [rewrite andb_false_r; discriminate |].
        intros H. rewrite H in R. discriminate R.
    + exists n.
      assert (Hop : stream_op (stream_run ops (new_stream g)) op
                    = stream_run ops (new_stream g)).
      { destruct op; cbn; unfold stream_pull, stream_cancel; rewrite R; reflexivity. }
      rewrite Hop, R. split; [lia |]. repeat split; auto; discriminate.
Qed.

(** A [cancel] that came after [close()] would find the generator
    completed and leave the stream as it is. *)
Lemma late_cancel_is_idle (g : Gen) (ops : list Op) :
  closed (stream_run ops (new_stream g)) = true ->
  cancel (stream_run ops (new_stream g)) = stream_run ops (new_stream g).
Proof.
  intros H.
  assert (Hs : settled (stream_run ops (new_stream g))).
  { apply settled_run. unfold settled, readable. simpl. discriminate. }
  unfold settled, readable in Hs. rewrite H in Hs. specialize (Hs eq_refl).
  unfold cancel, Generator.return_. rewrite <- Hs at 1.
  destruct (stream_run ops (new_stream g)); reflexivity.
Qed.

(** *** The stream in the hands of a consumer *)

Lemma cancel_keeps_closed (s : ReadableStream) :
  closed (stream_cancel s) = closed s.
Proof. unfold stream_cancel. destruct (readable s); reflexivity. Qed.

Lemma consume_app (acts : list Act) (a : Act) (s : ReadableStream) :
  consume (acts ++ [a]) s = act (consume acts s) a.
Proof. unfold consume. rewrite fold_left_app. reflexivity. Qed.

Lemma reads_app (acts : list Act) (a : Act) :
  reads (acts ++ [a])
  = reads acts + match a with Read => 1 | Abort => 0 end.
Proof.
  unfold reads. rewrite filter_app, length_app. destruct a; reflexivity.
Qed.

Lemma skipn_head (A : Type) (l : list A) (t : nat) (x : A) (rest : list A) :
  skipn t l = x :: rest ->
  firstn (S t) l = firstn t l ++ [x] /\ t < List.length l.
Proof.
  revert t. induction l as [| y l IH]; intros t H.
  - destruct t; discriminate H.
  - destruct t as [| t].
    + cbn in H. inversion H; subst. split; [reflexivity | cbn; lia].
    + cbn [skipn] in H. destruct (IH t H) as (Hf & Hl).
      split; [| cbn; lia].
      change (firstn (S (S t)) (y :: l)) with (y :: firstn (S t) l).
      rewrite Hf. reflexivity.
Qed.

Lemma firstn_next (A : Type) (l : list A) (m : nat) :
  m < List.length l ->
  exists x, firstn (S m) l = firstn m l ++ [x]
            /\ skipn m (firstn (S m) l) = [x].
Proof.
  revert m. induction l as [| y l IH]; intros m H; [cbn in H; lia |].
  destruct m as [| m].
  - exists y. split; reflexivity.
  - cbn [List.length] in H. destruct (IH m ltac:(lia)) as (x & Hf & Hs).
    exists x. split.
    + change (firstn (S (S m)) (y :: l)) with (y :: firstn (S m) l).
      rewrite Hf. reflexivity.
    + change (firstn (S (S m)) (y :: l)) with (y :: firstn (S m) l).
      cbn [skipn]. exact Hs.
Qed.

Lemma first_pull (g : Gen) :
  get_reader (new_stream g)
  = {| source := drive 1 (new_stream g); taken := 0; received := [] |}.
Proof. reflexivity. Qed.

(** Where a stream and its consumer stand after any reads and
    cancellations: at some number [n] of answered calls of [pull], one
    more than the messages taken unless the stream has ended, and at
    some number [k] of messages read. *)
Lemma reader_trace (g : Gen) (acts : list Act) :
  exists n k,
    n <= S (reads acts) /\ k <= reads acts
    /\ enqueued (source (consume acts (new_stream g))) = firstn n (transcript g)
    /\ List.length (enqueued (source (consume acts (new_stream g)))) = n
    /\ started (source (consume acts (new_stream g))) = fst (nexts n g)
    /\ (readable (source (consume acts (new_stream g))) = true ->
        source (consume acts (new_stream g)) = drive n (new_stream g))
    /\ (closed (source (consume acts (new_stream g))) = true ->
        Generator.yields g < n)
    /\ received (consume acts (new_stream g))
       = firstn k (enqueued (source (consume acts (new_stream g))))
    /\ k <= taken (consume acts (new_stream g))
    /\ taken (consume acts (new_stream g)) <= n
    /\ n <= S (taken (consume acts (new_stream g)))
    /\ (readable (source (consume acts (new_stream g))) = true ->
        taken (consume acts (new_stream g)) < n)
    /\ (taken (consume acts (new_stream g)) < n ->
        k = taken (consume acts (new_stream g))).
Proof.
  induction acts as [| a acts IH] using rev_ind.
  - change (consume [] (new_stream g)) with (get_reader (new_stream g)).
    rewrite first_pull. cbn [source taken received].
    destruct (drive_new 1 g) as (Hq & Hc & _ & Hs).
    assert (Hl : List.length (firstn 1 (transcript g)) = 1).
    { apply firstn_length_le. rewrite transcript_length. lia. }
    exists 1, 0. rewrite Hq, Hs, Hc, Hl. cbn [reads filter List.length firstn].
    split; [lia |]. split; [lia |]. split; [reflexivity |].
    split; [reflexivity |]. split; [reflexivity |]. split; [reflexivity |].
    split; [intros H; apply Nat.ltb_lt; exact H |].
    split; [reflexivity |]. split; [lia |]. split; [lia |]. split; [lia |].
    split; [lia | reflexivity].
  - rewrite consume_app, reads_app.
    destruct IH as (n & k & Hn & Hk & Hq & Hl & Hs & Hr & Hc & Hrec & Hkt & Htn
                    & Hnt & Hrt & Hkeq).
    set (r := consume acts (new_stream g)) in *.
    destruct a; cbn [act].
    + destruct (waiting r) as [| message rest] eqn:W.
      * exists n, k.
        split; [lia |]. split; [lia |]. split; [exact Hq |].
        split; [exact Hl |]. split; [exact Hs |]. split; [exact Hr |].
        split; [exact Hc |]. split; [exact Hrec |].
        split; [lia |]. split; [lia |]. split; [lia |].
        split; [exact Hrt | exact Hkeq].
      * unfold waiting in W. destruct (skipn_head _ _ _ _ _ W) as (Hf & Hlt).
        rewrite Hl in Hlt. specialize (Hkeq Hlt). subst k.
        unfold call_pull_if_needed, waiting. cbn [source taken received].
        rewrite (skipn_all2 (enqueued (source r))) by lia.
        cbn [source taken received].
        destruct (readable (source r)) eqn:R.
        -- specialize (Hr eq_refl).
           assert (Hy : n <= Generator.yields g).
           { destruct (drive_new n g) as (_ & Dc & _).
             rewrite Hr in R. unfold readable in R. rewrite Dc in R.
             apply andb_prop in R. destruct R as (R & _).
             apply negb_true_iff, Nat.ltb_ge in R. exact R. }
           rewrite Hr, <- drive_tail.
           destruct (drive_new (S n) g) as (Dq & Dc & _ & Ds).
           assert (Dl : List.length (firstn (S n) (transcript g)) = S n).
           { apply firstn_length_le. rewrite transcript_length. lia. }
           exists (S n), (S (taken r)). rewrite Dq, Dc, Ds, Dl.
           split; [lia |]. split; [lia |]. split; [reflexivity |].
           split; [reflexivity |]. split; [reflexivity |].
           split; [reflexivity |].
           split; [intros H; apply Nat.ltb_lt; exact H |].
           split.
           { rewrite Hrec, <- Hf, Hq, !firstn_firstn.
             rewrite (Nat.min_l (S (taken r)) n) by lia.
             rewrite (Nat.min_l (S (taken r)) (S n)) by lia. reflexivity. }
           split; [lia |]. split; [lia |]. split; [lia |].
           split; [lia | lia].
        -- assert (Hp : stream_pull (source r) = source r)
             by (unfold stream_pull; rewrite R; reflexivity).
           rewrite Hp, R.
           exists n, (S (taken r)).
           split; [lia |]. split; [lia |]. split; [exact Hq |].
           split; [exact Hl |]. split; [exact Hs |].
           split; [discriminate |]. split; [exact Hc |].
           split; [rewrite Hrec, <- Hf; reflexivity |].
           split; [lia |]. split; [lia |]. split; [lia |].
           split; [discriminate | lia].
    + cbn [source taken received]. destruct (cancel_quiet (source r)) as (Cs & Cq).
      rewrite Cs, Cq, cancel_keeps_closed, cancel_unreadable, Hl.
      exists n, k.
      split; [lia |]. split; [lia |]. split; [exact Hq |].
      split; [reflexivity |]. split; [exact Hs |].
      split; [discriminate |]. split; [exact Hc |].
      split; [exact Hrec |].
      split; [lia |]. split; [lia |]. split; [lia |].
      split; [discriminate | lia].
Qed.

(** A consumer that only reads: after [m] reads it has the first [m]
    messages of the transcript, and the source has been asked once
    more. *)
Lemma read_all (g : Gen) (m : nat) :
  consume (repeat Read m) (new_stream g)
  = {| source := drive (S m) (new_stream g);
       taken := Nat.min m (S (Generator.yields g));
       received := firstn m (transcript g) |}.
Proof.
  induction m as [| m IH]; [reflexivity |].
  change (repeat Read (S m)) with (Read :: repeat Read m).
  rewrite repeat_cons, consume_app, IH. clear IH.
  unfold act, waiting. cbn [source taken received].
  destruct (drive_new (S m) g) as (Dq & Dc & _). rewrite Dq.
  destruct (Nat.lt_ge_cases m (S (Generator.yields g))) as [Hm | Hm].
  - rewrite Nat.min_l by lia.
    destruct (firstn_next _ (transcript g) m) as (x & Hf & Hs);
      [rewrite transcript_length; exact Hm |].
    rewrite Hs. unfold call_pull_if_needed, waiting. cbn [source taken received].
    rewrite Dq, skipn_all2 by (rewrite length_firstn; lia).
    rewrite <- drive_tail, <- Hf, Nat.min_l by lia. reflexivity.
  - rewrite (Nat.min_r m) by lia.
    rewrite skipn_all2
      by (rewrite length_firstn, transcript_length; lia).
    rewrite (drive_tail (S m)).
    unfold stream_pull, readable. rewrite Dc.
    replace (Generator.yields g <? S m)%nat with true
      by (symmetry; apply Nat.ltb_lt; lia).
    cbn [negb andb]. rewrite Nat.min_r by lia.
    rewrite !firstn_all2 by (rewrite transcript_length; lia).
    reflexivity.
Qed.



End StreamFacts.

(* ================================================================= *)
(** ** The handlers *)

Lemma length_append (a b : string) :
  String.length (a ++ b) = String.length a + String.length b.
Proof. induction a as [| x a IH]; simpl; [reflexivity | rewrite IH; reflexivity]. Qed.

Lemma append_cancel_r (a b c : string) : (a ++ c = b ++ c)%string -> a = b.
Proof.
  revert b. induction a as [| x a IH]; intros [| y b] H; simpl in H.
  - reflexivity.
  - apply (f_equal String.length) in H. simpl in H.
    rewrite length_append in H. lia.
  - apply (f_equal String.length) in H. simpl in H.
    rewrite length_append in H. lia.
  - inversion H; subst. f_equal. apply IH. assumption.
Qed.

Lemma sse_injective (a b : string) : sse a = sse b -> a = b.
Proof.
  unfold sse. intros H. simpl in H. inversion H as [H'].
  apply append_cancel_r in H'. exact H'.
Qed.

Lemma for_await_collects {runtime : Runtime} (g : Gen) (acc : list RunEvent) :
  for_await g acc = (acc ++ Generator.events g, Generator.outcome g).
Proof.
  revert acc. induction g as [e rest IH | st rest IH | | err]; intros acc; simpl.
  - rewrite IH, <- app_assoc. reflexivity.
  - apply IH.
  - rewrite app_nil_r. reflexivity.
  - rewrite app_nil_r. reflexivity.
Qed.

(** *** [error.flatten()] keeps every issue under its field *)

Lemma push_field_new (field msg : string) (fe : list (string * list string)) :
  listed (Zod.push_field field msg fe) field msg.
Proof.
  induction fe as [| [f msgs] rest IH]; simpl.
  - exists [msg]. simpl. auto.
  - destruct (String.eqb f field) eqn:E.
    + apply String.eqb_eq in E. subst f.
      exists (msgs ++ [msg]). split; [left; reflexivity |].
      apply in_or_app. right. simpl. auto.
    + destruct IH as (ms & Hin & Hm). exists ms. split; [right; exact Hin | exact Hm].
Qed.

Lemma push_field_old (field msg f m : string) (fe : list (string * list string)) :
  listed fe f m -> listed (Zod.push_field field msg fe) f m.
Proof.
  intros (ms & Hin & Hm).
  induction fe as [| [f0 msgs0] rest IH]; simpl; [contradiction |].
  destruct Hin as [Heq | Hin].
  - inversion Heq; subst.
    destruct (String.eqb f field).
    + exists (ms ++ [msg]). split; [left; reflexivity | apply in_or_app; auto].
    + exists ms. split; [left; reflexivity | exact Hm].
  - destruct (IH Hin) as (ms' & Hin' & Hm').
    destruct (String.eqb f0 field).
    + exists ms. split; [right; exact Hin | exact Hm].
    + exists ms'. split; [right; exact Hin' | exact Hm'].
Qed.

Lemma flatten_step_old (acc : Zod.flattened) (i : Zod.issue) (f m : string) :
  listed (Zod.fieldErrors acc) f m ->
  listed (Zod.fieldErrors (Zod.flatten_step acc i)) f m.
Proof.
  intros H. unfold Zod.flatten_step.
  destruct (Zod.path i) as [| field rest]; simpl; [exact H |].
  apply push_field_old. exact H.
Qed.

Lemma flatten_fold_old (e : Zod.error) (acc : Zod.flattened) (f m : string) :
  listed (Zod.fieldErrors acc) f m ->
  listed (Zod.fieldErrors (fold_left Zod.flatten_step e acc)) f m.
Proof.
  revert acc. induction e as [| i e IH]; intros acc H; simpl; [exact H |].
  apply IH. apply flatten_step_old. exact H.
Qed.

Lemma flatten_lists_issue (e : Zod.error) (i : Zod.issue) (field : string)
      (rest : list string) :
  In i e -> Zod.path i = field :: rest ->
  listed (Zod.fieldErrors (Zod.flatten e)) field (Zod.message i).
Proof.
  unfold Zod.flatten. generalize {| Zod.formErrors := []; Zod.fieldErrors := [] |}.
  induction e as [| j e IH]; intros acc Hin Hp; [contradiction |].
  simpl. destruct Hin as [-> | Hin].
  - apply flatten_fold_old. unfold Zod.flatten_step. rewrite Hp. simpl.
    apply push_field_new.
  - apply IH; assumption.
Qed.

(** C2: when the coerced body of a POST fails the schema, the handler
    answers with status 422 and the flattened, field-by-field list of
    issues; the answer is the same whatever pipeline stands behind
    [createPipeline], and it has no stream, so that no operation on it
    starts a stage or produces a message. *)
Theorem POST_rejects_invalid_payload {runtime : Runtime}
        (json : Js.value) (err : Zod.error) :
  safeParse (coerceBody json) = Zod.Failure err ->
  POST (inl json)
  = JsonResponse (InvalidPayload "Invalid payload" (Zod.flatten err)) 422
  /\ (forall factory,
        @POST (with_pipeline runtime factory) (inl json) = POST (inl json))
  /\ (forall ops, served (POST (inl json)) ops = ([], []))
  /\ (forall i field rest,
        In i err -> Zod.path i = field :: rest ->
        listed (Zod.fieldErrors (Zod.flatten err)) field (Zod.message i)).
Proof.
  intros H.
  assert (HP : POST (inl json)
               = JsonResponse (InvalidPayload "Invalid payload" (Zod.flatten err)) 422).
  { unfold POST. rewrite H. reflexivity. }
  split; [exact HP |]. split; [| split].
  - intros factory. rewrite HP. unfold POST.
    change (@safeParse (with_pipeline runtime factory)
              (@coerceBody (with_pipeline runtime factory) json))
      with (safeParse (coerceBody json)).
    rewrite H. reflexivity.
  - intros ops. rewrite HP. reflexivity.
  - intros i field rest. apply flatten_lists_issue.
Qed.

Lemma POST_rejects_invalid_payload_witness :
  @POST sample_runtime (inl Sample.body_topic)
  = JsonResponse
      (InvalidPayload "Invalid payload"
         {| Zod.formErrors := [];
            Zod.fieldErrors :=
              [("openaiKey", ["Required"]); ("elevenLabsKey", ["Required"]);
               ("pexelsKey", ["Required"]); ("youtubeClientId", ["Required"]);
               ("youtubeClientSecret", ["Required"]);
               ("youtubeRefreshToken", ["Required"])] |})
      422.
Proof.
  exact (proj1 (@POST_rejects_invalid_payload sample_runtime
                  Sample.body_topic _ eq_refl)).
Defined.

(** C3: an accepted POST answers with the stream over the generator of
    the validated request (unless constructing the pipeline throws, which
    the handler answers with status 500).  That stream carries the events
    of the generator in the order it yields them, one message each, made
    of the text [data: ], the JSON of the event and two line feeds, none
    left out and none twice: call by call of [pull] the stream is given
    the next of these messages, and what a consumer has read is at any
    time an initial part of them.  When the generator is exhausted the
    next message is [data: [DONE]] and the stream is closed; a consumer
    that reads more often than the generator yields has read every
    message, the sentinel last. *)
Theorem POST_stream_forwards_events {runtime : Runtime}
        (json : Js.value) (data : PipelineRunRequest) :
  safeParse (coerceBody json) = Zod.Success data ->
  let g := createPipeline data in
  let message (payload : string) : string :=
    ("data: " ++ payload ++ String "010" (String "010" EmptyString))%string in
  let messages : list string :=
    map (fun e => message (JSON_stringify e)) (Generator.events g)
    ++ [match Generator.outcome g with
        | None => message "[DONE]"
        | Some err => message (JSON_stringify (fatal_event err))
        end] in
  POST (inl json)
  = match startFailure data with
    | None => EventStream (new_stream g)
    | Some err =>
        JsonResponse
          (StartFailure (error_message err "Unable to start automation pipeline"))
          500
    end
  /\ (forall n, enqueued (drive n (new_stream g)) = firstn n messages)
  /\ (forall acts,
        exists k,
          k <= reads acts
          /\ received (consume acts (new_stream g)) = firstn k messages)
  /\ (Generator.outcome g = None ->
      forall n, Generator.yields g < n ->
        enqueued (drive n (new_stream g))
        = map (fun e => message (JSON_stringify e)) (Generator.events g)
          ++ [message "[DONE]"]
        /\ closed (drive n (new_stream g)) = true
        /\ received (consume (repeat Read n) (new_stream g))
           = map (fun e => message (JSON_stringify e)) (Generator.events g)
             ++ [message "[DONE]"]).
Proof.
  intros H g message messages.
  assert (HT : messages = transcript g) by reflexivity.
  split; [| split; [| split]].
  - unfold POST. rewrite H. destruct (startFailure data); reflexivity.
  - intros n. rewrite HT. apply (drive_new n g).
  - intros acts.
    destruct (reader_trace g acts)
      as (n & k & _ & Hk & Hq & _ & _ & _ & _ & Hrec & Hkt & Htn & _).
    exists k. split; [exact Hk |].
    rewrite HT, Hrec, Hq, firstn_firstn, Nat.min_l by lia. reflexivity.
  - intros Ho n Hn. destruct (drive_drained g n Hn) as (Hq & Hc & _).
    assert (Hall : transcript g
                   = map (fun e => message (JSON_stringify e)) (Generator.events g)
                     ++ [message "[DONE]"]).
    { unfold transcript, final_chunk. rewrite Ho. reflexivity. }
    rewrite Hq, Hc, read_all. cbn [received].
    rewrite firstn_all2 by (rewrite transcript_length; lia).
    rewrite <- Hall. auto.
Qed.

(** C9: an accepted POST answers with the stream over the generator of
    the validated request (unless constructing the pipeline throws, which
    the handler answers with status 500).  When that generator throws,
    the drained stream holds the messages of the events yielded before,
    then one message for a made-up event with status [error], title
    [Fatal] and the message of the exception as detail, and is closed;
    the sentinel is in the drained stream exactly when the generator
    ended without throwing. *)
Theorem POST_stream_fatal_event {runtime : Runtime}
        (json : Js.value) (data : PipelineRunRequest) (n : nat) :
  (forall e, JSON_stringify e <> "[DONE]") ->
  safeParse (coerceBody json) = Zod.Success data ->
  Generator.yields (createPipeline data) < n ->
  let g := createPipeline data in
  let s := drive n (new_stream g) in
  POST (inl json)
  = match startFailure data with
    | None => EventStream (new_stream g)
    | Some err =>
        JsonResponse
          (StartFailure (error_message err "Unable to start automation pipeline"))
          500
    end
  /\ closed s = true
  /\ (forall err, Generator.outcome g = Some err ->
        enqueued s
        = map (fun e => sse (JSON_stringify e)) (Generator.events g)
          ++ [sse (JSON_stringify (fatal_event err))]
        /\ status (fatal_event err) = error
        /\ title (fatal_event err) = "Fatal"
        /\ detail (fatal_event err)
           = Some match err with
                  | ThrownError message => message
                  | ThrownOther => "Unknown failure"
                  end
        /\ ~ In (sse "[DONE]") (enqueued s))
  /\ (In (sse "[DONE]") (enqueued s) <-> Generator.outcome g = None).
Proof.
  intros Hjson H Hn g s.
  destruct (drive_drained g n Hn) as (Hq & Hc & _).
  assert (Hev : ~ In done_chunk (map chunk (Generator.events g))).
  { intros Hin. apply in_map_iff in Hin. destruct Hin as (e & He & _).
    apply sse_injective in He. exact (Hjson e He). }
  assert (Hfatal : forall err, chunk (fatal_event err) <> done_chunk).
  { intros err He. apply sse_injective in He. exact (Hjson _ He). }
  split; [unfold POST; rewrite H; destruct (startFailure data); reflexivity |].
  split; [exact Hc |]. split.
  - intros err Ho. subst s. rewrite Hq. unfold transcript, final_chunk. rewrite Ho.
    split; [reflexivity |]. split; [reflexivity |]. split; [reflexivity |].
    split; [destruct err; reflexivity |].
    intros Hin. apply in_app_or in Hin. destruct Hin as [Hin | [Hin | []]].
    + exact (Hev Hin).
    + exact (Hfatal err Hin).
  - subst s. rewrite Hq. unfold transcript, final_chunk.
    destruct (Generator.outcome g) as [err |] eqn:Ho; split.
    + intros Hin. apply in_app_or in Hin. destruct Hin as [Hin | [Hin | []]].
      * destruct (Hev Hin).
      * destruct (Hfatal err Hin).
    + discriminate.
    + reflexivity.
    + intros _. apply in_or_app. right. left. reflexivity.
Qed.



(** C5: once the consumer has cancelled the stream, whatever it does
    next starts no stage and produces no message: the stages started and
    the messages enqueued stay those of the time before the cancellation,
    the stages started are an initial segment of the stages of the run,
    and the generator is completed, so that even further calls of
    [next()] would start nothing and yield nothing. *)
Theorem cancel_stops_the_run {runtime : Runtime}
        (g : Gen) (before after : list Op) :
  let s := stream_run after (stream_run (before ++ [Cancel]) (new_stream g)) in
  started s = started (stream_run before (new_stream g))
  /\ enqueued s = enqueued (stream_run before (new_stream g))
  /\ (exists never, Generator.stages g = started s ++ never)
  /\ (forall n, nexts n (generator s) = ([], [])).
Proof.
  intros s. subst s.
  destruct (cancel_is_final g before after) as (Hfin & Hg & Hs & Hq).
  rewrite Hfin, Hs, Hq, Hg.
  split; [reflexivity |]. split; [reflexivity |]. split.
  - destruct (in_order_run g before) as (rest & Hrest & _). exists rest. exact Hrest.
  - apply nexts_completed.
Qed.

Lemma POST_stream_forwards_events_witness :
  @POST brief_runtime (inl Sample.body_credentials)
  = EventStream
      (new_stream (Sample.brief (@coerceBody brief_runtime Sample.body_credentials)))
  /\ enqueued (@drive brief_runtime 3
                 (new_stream
                    (Sample.brief (@coerceBody brief_runtime Sample.body_credentials))))
     = [("data: "
         ++ Sample.stringify
              {| id := "e0"; status := info; title := "Script"; detail := None;
                 timestamp := "t0"; meta := None |}
         ++ String "010" (String "010" EmptyString))%string;
        ("data: "
         ++ Sample.stringify
              {| id := "e1"; status := success; title := "Publish"; detail := None;
                 timestamp := "t1"; meta := None |}
         ++ String "010" (String "010" EmptyString))%string;
        ("data: [DONE]" ++ String "010" (String "010" EmptyString))%string]
  /\ closed (@drive brief_runtime 3
               (new_stream
                  (Sample.brief (@coerceBody brief_runtime Sample.body_credentials))))
     = true
  /\ received (@consume brief_runtime [Read; Read; Read]
                 (new_stream
                    (Sample.brief (@coerceBody brief_runtime Sample.body_credentials))))
     = enqueued (@drive brief_runtime 3
                   (new_stream
                      (Sample.brief
                         (@coerceBody brief_runtime Sample.body_credentials)))).
Proof.
  destruct (@POST_stream_forwards_events brief_runtime
              Sample.body_credentials _ eq_refl) as (HP & _ & _ & Hdone).
  split; [exact HP |].
  destruct (Hdone eq_refl 3 (proj1 (Nat.ltb_lt 2 3) eq_refl)) as (Hq & Hc & Hr).
  split; [exact Hq |]. split; [exact Hc |].
  exact (eq_trans Hr (eq_sym Hq)).
Defined.

Lemma sample_stringify_not_done (e : RunEvent) : Sample.stringify e <> "[DONE]".
Proof. unfold Sample.stringify. simpl. discriminate. Qed.

Lemma POST_stream_fatal_event_witness :
  closed (@drive broken_runtime 2
            (new_stream
               (Sample.broken (@coerceBody broken_runtime Sample.body_credentials))))
  = true
  /\ enqueued (@drive broken_runtime 2
                 (new_stream
                    (Sample.broken
                       (@coerceBody broken_runtime Sample.body_credentials))))
     = [sse (Sample.stringify
               {| id := "e0"; status := info; title := "Script"; detail := None;
                  timestamp := "t0"; meta := None |});
        sse (Sample.stringify
               {| id := "7c9e6679-7425-40de-944b-e07fc1f90ae7"; status := error;
                  title := "Fatal"; detail := Some "socket hang up";
                  timestamp := "2026-11-01T09:00:00.000Z"; meta := None |})]
  /\ ~ In (sse "[DONE]")
          (enqueued (@drive broken_runtime 2
                       (new_stream
                          (Sample.broken
                             (@coerceBody broken_runtime Sample.body_credentials))))).
Proof.
  pose proof (@POST_stream_fatal_event broken_runtime
                Sample.body_credentials _ 2
                sample_stringify_not_done eq_refl
                (proj1 (Nat.ltb_lt 1 2) eq_refl)) as H.
  destruct H as (_ & Hc & Herr & _).
  destruct (Herr (ThrownError "socket hang up") eq_refl) as (Hq & _ & _ & _ & Hno).
  split; [exact Hc |]. split; [exact Hq | exact Hno].
Defined.


(** When constructing the pipeline throws, POST answers with status 500
    and the message of the error, or the stock message for a thrown value
    that is no [Error]; an invalid body is still answered with 422, the
    schema coming first; and from GET the exception escapes. *)
Example start_failure_is_answered :
  @POST (failing_start sample_runtime (ThrownError "no ffmpeg"))
    (inl Sample.body_credentials)
  = JsonResponse (StartFailure "no ffmpeg") 500
  /\ @POST (failing_start sample_runtime ThrownOther) (inl Sample.body_credentials)
     = JsonResponse (StartFailure "Unable to start automation pipeline") 500
  /\ @POST (failing_start sample_runtime ThrownOther) (inl Sample.body_topic)
     = @POST sample_runtime (inl Sample.body_topic)
  /\ @POST sample_runtime (inr (ThrownError "Unexpected end of JSON input"))
     = JsonResponse (StartFailure "Unexpected end of JSON input") 500
  /\ @GET (failing_start sample_runtime (ThrownError "no ffmpeg"))
       (Sample.env_credentials None None)
     = inr (EscapedThrown (ThrownError "no ffmpeg")).
Proof. repeat split. Qed.

(** The spec's scenario on the sample conductor: the consumer has taken
    the four messages up to the Narration summary, the stream has the
    Footage announcement queued, and the consumer cancels.  Script and
    Narration are the only stages that ever start. *)
Example cancel_after_narration (after : list Op) :
  let g := @createPipeline sample_runtime
             (@coerceBody sample_runtime Sample.body_credentials) in
  let s := @stream_run sample_runtime after
             (@stream_run sample_runtime
                ([Demand; Demand; Demand; Demand; Demand] ++ [Cancel])
                (new_stream g)) in
  started s = [Script; Narration]
  /\ List.length (enqueued s) = 5
  /\ Generator.stages g = [Script; Narration; Footage; Render; Publish].
Proof.
  intros g s. subst s.
  destruct (@cancel_is_final sample_runtime g
              [Demand; Demand; Demand; Demand; Demand] after)
    as (Hfin & _ & Hs & Hq).
  rewrite Hfin, Hs, Hq. repeat split.
Qed.

(* ================================================================= *)
(** ** The conductor *)

Section ConductorFacts.

Variable stages : Conductor.Stages.
Variable halt : Conductor.Halt.
Variable ids : nat -> string.
Variable clock : nat -> string.

Lemma split_last (l : list RunEvent) (d : RunEvent) :
  l <> [] -> l = removelast l ++ [last l d].
Proof. apply app_removelast_last. Qed.

(** The shape of every run: its last event is terminal with status
    [success] or [error], no earlier event is terminal, and the generator
    ends right after it, by a return or, after an error under
    [HaltThrow], by throwing the failure. *)
Lemma run_shape (cfg : PipelineRunRequest) :
  exists before final,
    Generator.events (Conductor.run stages halt ids clock cfg) = before ++ [final]
    /\ Conductor.terminal final = true
    /\ (status final = success \/ status final = error)
    /\ forallb (fun e => negb (Conductor.terminal e)) before = true
    /\ Generator.outcome (Conductor.run stages halt ids clock cfg)
       = match status final, halt, detail final with
         | error, Conductor.HaltThrow, Some why => Some (ThrownError why)
         | _, _, _ => None
         end.
Proof.
  unfold Conductor.run, Conductor.after_publish.
  destruct (Conductor.scriptStage stages cfg) as [script | [] why1];
    [destruct (Conductor.narrationStage stages cfg script) as [narration | [] why2];
     [destruct (Conductor.footageStage stages cfg script narration)
        as [footage | [] why3];
      [destruct (Conductor.renderStage stages cfg narration footage)
         as [video | [] why4];
       [destruct (Conductor.publishStage stages cfg video) as [result | k why5];
        [destruct (String.eqb (webhookUrl cfg) "");
         [| destruct (Conductor.notifyStage stages cfg result) as [[] | [] why6]]
        | destruct k] | ] | ] | ] | ].
  all: destruct halt.
  all: match goal with
       | |- exists before final, ?l = _ /\ _ =>
           exists (removelast l), (last l (Conductor.announce ids clock 0 info Script))
       end.
  all: split; [reflexivity |]; split; [reflexivity |]; split;
         [first [left; reflexivity | right; reflexivity] |];
         split; reflexivity.
Qed.

(** C1: the events of a run, for every request handed to the conductor,
    end with a terminal event whose status is [success] or [error], and
    it is the only terminal event of the run. *)
Theorem run_has_one_terminal_event (cfg : PipelineRunRequest) :
  (exists before final,
      Generator.events (Conductor.run stages halt ids clock cfg) = before ++ [final]
      /\ Conductor.terminal final = true
      /\ (status final = success \/ status final = error)
      /\ forallb (fun e => negb (Conductor.terminal e)) before = true)
  /\ List.length
       (filter Conductor.terminal
               (Generator.events (Conductor.run stages halt ids clock cfg)))
     = 1.
Proof.
  destruct (run_shape cfg) as (before & final & He & Ht & Hs & Hb & _).
  split.
  - exists before, final. auto.
  - rewrite He, filter_app, length_app. simpl. rewrite Ht. simpl.
    assert (Hnone : filter Conductor.terminal before = []).
    { clear He. induction before as [| e before IH]; simpl in *; [reflexivity |].
      apply andb_prop in Hb. destruct Hb as (H1 & H2).
      apply negb_true_iff in H1. rewrite H1. apply IH. exact H2. }
    rewrite Hnone. reflexivity.
Qed.

(** When the Script stage fails the run is its announcement and the
    error; Script is the only stage that was started. *)
Lemma script_failure_ends_run (cfg : PipelineRunRequest) (why : string) :
  Conductor.scriptStage stages cfg = Conductor.Failed tt why ->
  Generator.events (Conductor.run stages halt ids clock cfg)
  = [Conductor.announce ids clock 0 info Script;
     Conductor.failure ids clock 1 Script Conductor.GenerationFailure why]
  /\ Generator.stages (Conductor.run stages halt ids clock cfg) = [Script].
Proof.
  intros H. unfold Conductor.run. rewrite H. destruct halt; split; reflexivity.
Qed.

(** C6: when Publish succeeds and Notify fails, the run ends with the
    report of the Notify failure, an event of status [error] that is not
    terminal, followed by the terminal event of status [success] whose
    metadata carries the publish result (video id, url, applied
    visibility, final title and final description); nothing before them
    is terminal. *)
Theorem notify_failure_keeps_success (cfg : PipelineRunRequest)
        (r : Conductor.PublishResult) :
  Conductor.publishes stages cfg r ->
  Conductor.notify_failed stages cfg r ->
  exists before report final,
    Generator.events (Conductor.run stages halt ids clock cfg) = before ++ [report; final]
    /\ status report = error
    /\ title report = "Notify"
    /\ Conductor.terminal report = false
    /\ final = Conductor.published ids clock 11 r
    /\ status final = success
    /\ Conductor.terminal final = true
    /\ forallb (fun e => negb (Conductor.terminal e)) before = true
    /\ meta final
       = Some [("videoId", Js.Str (Conductor.videoId r));
               ("url", Js.Str (Conductor.url r));
               ("visibility", Js.Str (Conductor.applied r));
               ("title", Js.Str (Conductor.finalTitle r));
               ("description", Js.Str (Conductor.finalDescription r))]
    /\ title final = "Publish"
    /\ Conductor.failure_tag report = Some "NotifyFailure".
Proof.
  intros (script & narration & footage & video & H1 & H2 & H3 & H4 & H5)
         (Hweb & k & why & Hn).
  unfold Conductor.run, Conductor.after_publish.
  rewrite H1, H2, H3, H4, H5, Hn.
  apply String.eqb_neq in Hweb. rewrite Hweb.
  cbn [Generator.events].
  eexists [_; _; _; _; _; _; _; _; _; _], _, _.
  split; [reflexivity |].
  repeat (split; [reflexivity |]). reflexivity.
Qed.

End ConductorFacts.

Lemma notify_failure_keeps_success_witness :
  exists before report final,
    Generator.events
      (Conductor.run Sample.stages_ok Conductor.HaltThrow Sample.ident Sample.tick
         (@coerceBody sample_runtime Sample.body_webhook))
    = before ++ [report; final]
    /\ status report = error
    /\ title report = "Notify"
    /\ Conductor.terminal report = false
    /\ final = Conductor.published Sample.ident Sample.tick 11 Sample.result_v1
    /\ status final = success
    /\ Conductor.terminal final = true
    /\ forallb (fun e => negb (Conductor.terminal e)) before = true
    /\ meta final
       = Some [("videoId", Js.Str "v1"); ("url", Js.Str "https://y/v1");
               ("visibility", Js.Str "unlisted"); ("title", Js.Str "T");
               ("description", Js.Str "D")]
    /\ title final = "Publish"
    /\ Conductor.failure_tag report = Some "NotifyFailure".
Proof.
  apply (notify_failure_keeps_success Sample.stages_ok Conductor.HaltThrow
           Sample.ident Sample.tick
           (@coerceBody sample_runtime Sample.body_webhook) Sample.result_v1).
  - do 4 eexists. repeat split.
  - split; [discriminate | exists tt, "timeout"; reflexivity].
Defined.

(** The end-to-end scenario of the specification with every stage
    succeeding and no webhook: the statuses of the run in order. *)
Example run_to_success :
  map status
      (Generator.events
         (Conductor.run Sample.stages_ok Conductor.HaltThrow Sample.ident
            Sample.tick (@coerceBody sample_runtime Sample.body_credentials)))
  = [info; progress; info; progress; info; progress; info; progress;
     uploading; success].
Proof. reflexivity. Qed.

(** The scenario with an expired refresh credential: the run halts at an
    error tagged AuthFailure right after the uploading event. *)
Example run_to_auth_failure :
  map (fun e => (status e, Conductor.failure_tag e))
      (Generator.events
         (Conductor.run Sample.stages_expired Conductor.HaltThrow Sample.ident
            Sample.tick (@coerceBody sample_runtime Sample.body_credentials)))
  = [(info, None); (progress, None); (info, None); (progress, None);
     (info, None); (progress, None); (info, None); (progress, None);
     (uploading, None); (error, Some "AuthFailure")].
Proof. reflexivity. Qed.

(** What GET reports of a run whose Script stage fails follows the way the
    generator ends: [ok: false] under status 500 when the failure escapes
    as an exception, [ok: true] when the generator returns after its
    error event.  The events are the same two in both reports. *)
Example cron_report_follows_the_ending :
  (exists events,
      @GET (scriptless_runtime Conductor.HaltThrow) (Sample.env_credentials None None)
      = inl (JsonResponse (CronReport false (Some "empty content") events) 500)
      /\ map status events = [info; error])
  /\ (exists events,
         @GET (scriptless_runtime Conductor.HaltReturn)
           (Sample.env_credentials None None)
         = inl (JsonResponse (CronReport true None events) 200)
         /\ map status events = [info; error]).
Proof. split; eexists; split; reflexivity. Qed.

(* ================================================================= *)
(** ** Template expansion *)

Module TemplateFacts.

Import Template.

(** A string without a token is its own expansion. *)
Lemma expand_without_token (date s : string) :
  has_token s = false -> expand date s = s.
Proof.
  unfold expand. induction s as [| c rest IH]; intros H; [reflexivity |].
  cbn [has_token] in H. apply orb_false_elim in H. destruct H as (Hhead & Hrest).
  cbn [expand_from]. rewrite Hhead, (IH Hrest). reflexivity.
Qed.

(** A pattern that avoids the first character of the date and matches at
    the head of an expansion matches at the head of the template. *)
Lemma head_of_expansion (d0 : ascii) (date' : string) (p : string) :
  occurs d0 p = false ->
  forall s, starts_with p (expand_from 0 (String d0 date') s) = true ->
            starts_with p s = true.
Proof.
  induction p as [| a p IH]; intros Hp s H; [destruct s; reflexivity |].
  cbn [occurs] in Hp. apply orb_false_elim in Hp. destruct Hp as (Ha & Hp).
  destruct s as [| c rest]; [discriminate H |].
  cbn [expand_from] in H.
  destruct (starts_with token (String c rest)) eqn:E.
  - change (String d0 date' ++ expand_from (String.length token - 1) (String d0 date') rest)%string
      with (String d0 (date' ++ expand_from (String.length token - 1) (String d0 date') rest)) in H.
    cbn [starts_with] in H. rewrite Ascii.eqb_sym, Ha in H. discriminate H.
  - cbn [starts_with] in H |- *.
    apply andb_prop in H. destruct H as (Hc & Hrest).
    rewrite Hc. exact (IH Hp rest Hrest).
Qed.

Lemma inert_inv (date : string) :
  inert date = true ->
  exists d0 date', date = String d0 date'
                   /\ occurs d0 token = false /\ apart date' = true.
Proof.
  unfold inert. destruct date as [| d0 date']; [discriminate |].
  cbn. intros H. apply andb_prop in H. destruct H as (H1 & H2).
  apply negb_true_iff in H1. exists d0, date'. auto.
Qed.

(** An expansion by an inert date never begins with a token. *)
Lemma head_never_token (date s : string) :
  inert date = true -> starts_with token (expand_from 0 date s) = false.
Proof.
  intros Hd. destruct (inert_inv date Hd) as (d0 & date' & -> & H0 & _).
  destruct (starts_with token (expand_from 0 (String d0 date') s)) eqn:E;
    [| reflexivity].
  pose proof (head_of_expansion d0 date' token H0 s E) as Hs.
  destruct s as [| c rest]; [discriminate Hs |].
  cbn [expand_from] in E. rewrite Hs in E.
  cbn [occurs token] in H0. apply orb_false_elim in H0. destruct H0 as (H0 & _).
  change (String d0 date' ++ expand_from (String.length token - 1) (String d0 date') rest)%string
    with (String d0 (date' ++ expand_from (String.length token - 1) (String d0 date') rest)) in E.
  unfold token at 1 in E. cbn [starts_with] in E.
  rewrite Ascii.eqb_sym, H0 in E. discriminate E.
Qed.

Lemma has_token_after_apart (d x : string) :
  apart d = true -> has_token (d ++ x) = has_token x.
Proof.
  induction d as [| c d IH]; intros H; [reflexivity |].
  cbn [apart] in H. apply andb_prop in H. destruct H as (Hc & Hd).
  apply negb_true_iff in Hc.
  cbn [occurs token] in Hc. apply orb_false_elim in Hc. destruct Hc as (Hc & _).
  change (String c d ++ x)%string with (String c (d ++ x)).
  cbn [has_token]. rewrite (IH Hd).
  unfold token at 1. cbn [starts_with]. rewrite Ascii.eqb_sym, Hc. reflexivity.
Qed.

(** No token is left in an expansion by an inert date. *)
Lemma expansion_has_no_token (date : string) :
  inert date = true ->
  forall s k, has_token (expand_from k date s) = false.
Proof.
  intros Hd. induction s as [| c rest IH]; intros k; [destruct k; reflexivity |].
  destruct k as [| k]; cbn [expand_from]; [| apply IH].
  destruct (starts_with token (String c rest)) eqn:E.
  - rewrite has_token_after_apart; [apply IH |].
    unfold inert in Hd. apply andb_prop in Hd. apply Hd.
  - pose proof (head_never_token date (String c rest) Hd) as Hh.
    cbn [expand_from] in Hh. rewrite E in Hh.
    cbn [has_token]. rewrite Hh, IH. reflexivity.
Qed.

(** Expanding twice by an inert date is expanding once. *)
Lemma expand_twice (date s : string) :
  inert date = true -> expand date (expand date s) = expand date s.
Proof.
  intros Hd. apply expand_without_token.
  unfold expand. apply expansion_has_no_token. exact Hd.
Qed.

Lemma apart_app (a b : string) : apart (a ++ b) = apart a && apart b.
Proof.
  induction a as [| c a IH]; [reflexivity |].
  change (String c a ++ b)%string with (String c (a ++ b)).
  cbn [apart]. rewrite IH, andb_assoc. reflexivity.
Qed.

Lemma digit_apart (z : Z) : occurs (digit z) token = false.
Proof.
  unfold digit.
  assert (H : (Z.to_nat (z mod 10) < 10)%nat).
  { pose proof (Z.mod_pos_bound z 10 eq_refl). lia. }
  generalize dependent (Z.to_nat (z mod 10)). intros n H.
  do 10 (destruct n as [| n]; [reflexivity |]). lia.
Qed.

Lemma two_digits_apart (z : Z) : apart (two_digits z) = true.
Proof. unfold two_digits. cbn [apart]. rewrite !digit_apart. reflexivity. Qed.

(** A date written as YYYY-MM-DD is inert. *)
Lemma iso_date_inert (day : Z) : inert (iso_date day) = true.
Proof.
  unfold inert, iso_date. destruct (civil day) as [[y m] d].
  apply andb_true_intro. split.
  - reflexivity.
  - unfold four_digits. rewrite !apart_app, !two_digits_apart. reflexivity.
Qed.

End TemplateFacts.

(** C8: expansion leaves a string without tokens as it is, whatever the
    date; expanding what was already expanded changes nothing; and two
    expansions of a template at instants of the same calendar day give
    the same string. *)
Theorem expansion_is_stable (t1 t2 : Z) (template : string) :
  Template.day_of t1 = Template.day_of t2 ->
  Template.expand_at t1 template = Template.expand_at t2 template
  /\ Template.expand_at t1 (Template.expand_at t1 template)
     = Template.expand_at t1 template
  /\ (Template.has_token template = false ->
      forall date, Template.expand date template = template).
Proof.
  intros Hday. unfold Template.expand_at. rewrite Hday.
  split; [reflexivity |]. split.
  - apply TemplateFacts.expand_twice. apply TemplateFacts.iso_date_inert.
  - intros H date. apply TemplateFacts.expand_without_token. exact H.
Qed.

Lemma expansion_is_stable_witness :
  Template.expand_at 1793491200000 "Daily Briefing - {{date}}"
  = Template.expand_at 1793577599999 "Daily Briefing - {{date}}"
  /\ Template.expand_at 1793491200000
       (Template.expand_at 1793491200000 "Daily Briefing - {{date}}")
     = Template.expand_at 1793491200000 "Daily Briefing - {{date}}"
  /\ (Template.has_token "Daily Briefing - {{date}}" = false ->
      forall date, Template.expand date "Daily Briefing - {{date}}"
                   = "Daily Briefing - {{date}}").
Proof.
  exact (expansion_is_stable 1793491200000 1793577599999
           "Daily Briefing - {{date}}" eq_refl).
Defined.

(** The template of the specification on the first of November 2026,
    and a title without a token. *)
Example daily_briefing :
  Template.expand_at 1793491200000 "Daily Briefing - {{date}}"
  = "Daily Briefing - 2026-11-01"
  /\ Template.expand_at 1793577599999 "Daily Briefing - {{date}}"
     = "Daily Briefing - 2026-11-01"
  /\ Template.expand_at 1793577600000 "Daily Briefing - {{date}}"
     = "Daily Briefing - 2026-11-02"
  /\ Template.expand_at 1793491200000 "Weekly wrap-up"
     = "Weekly wrap-up".
Proof. vm_compute. auto. Qed.

(* ================================================================= *)
(** ** Coercion of the request body *)

Section CoercionFacts.

Context {runtime : Runtime}.

Lemma coerceNumber_reading (input : Js.value) (fallback : Js.num) :
  coerceNumber input fallback
  = if positive (reading input) then reading input else fallback.
Proof. destruct input; reflexivity. Qed.

Lemma coerceNumber_positive (input : Js.value) :
  positive (coerceNumber input (Js.of_Z 120)) = true.
Proof.
  rewrite coerceNumber_reading.
  destruct (positive (reading input)) eqn:E; [exact E | reflexivity].
Qed.

Lemma visibility_cases (v : string) :
  (String.eqb v "private" || String.eqb v "public" || String.eqb v "unlisted")
  = SpecSchema.is_visibility v.
Proof.
  unfold SpecSchema.is_visibility.
  destruct (String.eqb v "private"), (String.eqb v "public"),
    (String.eqb v "unlisted"); reflexivity.
Qed.

Lemma preset_cases (p : string) :
  (if String.eqb p "facts" || String.eqb p "longform" then p else "news")
  = if SpecSchema.is_preset p then p else "news".
Proof.
  unfold SpecSchema.is_preset.
  destruct (String.eqb p "news") eqn:E; [| reflexivity].
  apply String.eqb_eq in E. subst p. reflexivity.
Qed.

Lemma coerced_visibility (body : Js.value) :
  visibility (coerceBody body)
  = match tr (Js.get body "visibility") with
    | Some v => if SpecSchema.is_visibility v then v else "unlisted"
    | None => "unlisted"
    end.
Proof.
  unfold coerceBody; cbn [visibility].
  destruct (tr (Js.get body "visibility")) as [v |]; [| reflexivity].
  rewrite visibility_cases. reflexivity.
Qed.

Lemma coerced_preset (body : Js.value) :
  preset (coerceBody body)
  = match tr (Js.get body "preset") with
    | Some p => if SpecSchema.is_preset p then p else "news"
    | None => "news"
    end.
Proof.
  unfold coerceBody; cbn [preset].
  destruct (tr (Js.get body "preset")) as [p |]; [| reflexivity].
  apply preset_cases.
Qed.

Lemma about_required (fields : list string) (field : string) (v : option string) :
  existsb (String.eqb field) fields = true ->
  forallb (about fields) (SpecSchema.required field v) = true.
Proof.
  intros H. destruct v; [reflexivity |].
  unfold SpecSchema.required, SpecSchema.issue_at, about. simpl.
  rewrite H. reflexivity.
Qed.

Lemma about_check (fields : list string) (ok : bool) (field msg : string) :
  ok = true \/ existsb (String.eqb field) fields = true ->
  forallb (about fields) (SpecSchema.check ok field msg) = true.
Proof.
  intros [-> | H]; [reflexivity |].
  destruct ok; [reflexivity |].
  unfold SpecSchema.check, SpecSchema.issue_at, about. simpl.
  rewrite H. reflexivity.
Qed.

(** C10, as the code has it: [coerceBody] never leaves visibility, preset
    or target duration for the schema to reject.  The trimmed text of the
    visibility is kept when it is one of public, unlisted, private and
    replaced by unlisted otherwise; the trimmed text of the preset is kept
    when it is one of news, facts, longform and replaced by news
    otherwise; the target duration is the number the input stands for
    (itself, or [Number] of a string) when that is finite and above zero,
    and 120 otherwise.  The request handed to the schema therefore always
    has a finite target duration above zero, and every issue that the
    schema of the specification can raise on it is about a credential or
    the tag list: the schema accepts the request unless one of those
    other fields is at fault. *)
Theorem coerceBody_normalises (body : Js.value) :
  visibility (coerceBody body)
  = match tr (Js.get body "visibility") with
    | Some v => if SpecSchema.is_visibility v then v else "unlisted"
    | None => "unlisted"
    end
  /\ preset (coerceBody body)
     = match tr (Js.get body "preset") with
       | Some p => if SpecSchema.is_preset p then p else "news"
       | None => "news"
       end
  /\ targetDurationSeconds (coerceBody body)
     = (if positive (reading (Js.get body "targetDurationSeconds"))
        then reading (Js.get body "targetDurationSeconds")
        else Js.of_Z 120)
  /\ SpecSchema.is_visibility (visibility (coerceBody body)) = true
  /\ SpecSchema.is_preset (preset (coerceBody body)) = true
  /\ Js.isFinite (targetDurationSeconds (coerceBody body)) = true
  /\ Js.gt_zero (targetDurationSeconds (coerceBody body)) = true
  /\ forallb (about other_fields) (SpecSchema.issues (coerceBody body)) = true
  /\ (SpecSchema.safeParse (coerceBody body) = Zod.Success (coerceBody body)
      \/ exists i, In i (SpecSchema.issues (coerceBody body))
                   /\ about other_fields i = true).
Proof.
  assert (Hv : SpecSchema.is_visibility (visibility (coerceBody body)) = true).
  { rewrite coerced_visibility.
    destruct (tr (Js.get body "visibility")) as [v |]; [| reflexivity].
    destruct (SpecSchema.is_visibility v) eqn:E; [exact E | reflexivity]. }
  assert (Hp : SpecSchema.is_preset (preset (coerceBody body)) = true).
  { rewrite coerced_preset.
    destruct (tr (Js.get body "preset")) as [p |]; [| reflexivity].
    destruct (SpecSchema.is_preset p) eqn:E; [exact E | reflexivity]. }
  assert (Hd : positive (targetDurationSeconds (coerceBody body)) = true).
  { unfold coerceBody; cbn [targetDurationSeconds]. apply coerceNumber_positive. }
  split; [apply coerced_visibility |]. split; [apply coerced_preset |].
  split; [unfold coerceBody; cbn [targetDurationSeconds];
          apply coerceNumber_reading |].
  split; [exact Hv |]. split; [exact Hp |].
  pose proof Hd as Hd'. unfold positive in Hd'. apply andb_prop in Hd'.
  split; [apply Hd' |]. split; [apply Hd' |].
  assert (Hall : forallb (about other_fields) (SpecSchema.issues (coerceBody body))
                 = true).
  { unfold SpecSchema.issues. rewrite !forallb_app.
    rewrite !about_required by reflexivity.
    rewrite !about_check; try (right; reflexivity); try reflexivity.
    - left. exact Hp.
    - left. exact Hv.
    - left. exact Hd. }
  split; [exact Hall |].
  unfold SpecSchema.safeParse.
  destruct (SpecSchema.issues (coerceBody body)) as [| i rest]; [left; reflexivity |].
  right. exists i. split; [left; reflexivity |].
  cbn [forallb] in Hall. apply andb_prop in Hall. apply Hall.
Qed.

End CoercionFacts.

(** The first clause of C10 as it is written fails on a member of the
    enumeration with white space around it: the value is none of the
    three texts, and yet it is not replaced by unlisted. *)
Lemma padded_visibility_is_kept :
  ~ In (Js.get Sample.body_padded "visibility")
       [Js.Str "public"; Js.Str "unlisted"; Js.Str "private"]
  /\ visibility (@coerceBody sample_runtime Sample.body_padded) = "public"
  /\ visibility (@coerceBody sample_runtime Sample.body_padded) <> "unlisted".
Proof.
  split; [| split].
  - simpl. intros [H | [H | [H | []]]]; discriminate H.
  - reflexivity.
  - discriminate.
Qed.

(** A duration given as text is converted, not replaced. *)
Example duration_text_is_read :
  targetDurationSeconds
    (@coerceBody sample_runtime
       (Js.Obj [("targetDurationSeconds", Js.Str "90")])) = Js.of_Z 90
  /\ targetDurationSeconds
       (@coerceBody sample_runtime
          (Js.Obj [("targetDurationSeconds", Js.Num (Js.of_Z (-5)))])) = Js.of_Z 120
  /\ targetDurationSeconds
       (@coerceBody sample_runtime
          (Js.Obj [("targetDurationSeconds", Js.Num Js.PosInfinity)])) = Js.of_Z 120
  /\ targetDurationSeconds
       (@coerceBody sample_runtime (Js.Obj [("targetDurationSeconds", Js.Null)]))
     = Js.of_Z 120.
Proof. repeat split. Qed.

(* ================================================================= *)
(** ** The two construction paths *)




Lemma filter_all (A : Type) (f : A -> bool) (l : list A) :
  forallb f l = true -> filter f l = l.
Proof.
  induction l as [| x l IH]; simpl; intros H; [reflexivity |].
  apply andb_prop in H. destruct H as (Hx & Hl).
  rewrite Hx, (IH Hl). reflexivity.
Qed.


Lemma lookup_prop_other (key k : string) (v : option string)
      (rest : list (string * Js.value)) :
  String.eqb k key = false ->
  Js.lookup key (prop k v ++ rest) = Js.lookup key rest.
Proof. intros H. destruct v as [s |]; simpl; [rewrite H |]; reflexivity. Qed.

Lemma lookup_flag_other (key k : string) (v : option string)
      (rest : list (string * Js.value)) :
  String.eqb k key = false ->
  Js.lookup key (flag k v ++ rest) = Js.lookup key rest.
Proof. intros H. destruct v as [s |]; simpl; [rewrite H |]; reflexivity. Qed.

Lemma lookup_prop_same (key : string) (v : option string)
      (rest : list (string * Js.value)) :
  Js.lookup key (prop key v ++ rest)
  = match v with
    | Some s => Js.Str s
    | None => Js.lookup key rest
    end.
Proof. destruct v as [s |]; simpl; [rewrite String.eqb_refl |]; reflexivity. Qed.


Ltac pass_others :=
  repeat first [ rewrite lookup_prop_other by reflexivity
               | rewrite lookup_flag_other by reflexivity ].



Lemma tr_tidy (s : string) : tidy s = true -> tr (Js.Str s) = Some s.
Proof.
  unfold tidy, trimmed, tr. intros H. apply andb_prop in H. destruct H as (Ht & Hne).
  apply String.eqb_eq in Ht. rewrite Ht.
  destruct s; [discriminate Hne | reflexivity].
Qed.




Lemma visibility_tidy (s : string) :
  SpecSchema.is_visibility s = true -> tidy s = true.
Proof.
  unfold SpecSchema.is_visibility. intros H.
  apply orb_prop in H. destruct H as [H | H];
    [apply orb_prop in H; destruct H as [H | H] |];
    apply String.eqb_eq in H; subst s; reflexivity.
Qed.

Lemma preset_tidy (s : string) :
  SpecSchema.is_preset s = true -> tidy s = true.
Proof.
  unfold SpecSchema.is_preset. intros H.
  apply orb_prop in H. destruct H as [H | H];
    [apply orb_prop in H; destruct H as [H | H] |];
    apply String.eqb_eq in H; subst s; reflexivity.
Qed.










(** An entry left blank by a trailing comma stays in the list that
    [coerceBody] builds and is dropped from the one of [deriveFromEnv]. *)
Example blank_tag_in_body :
  uploadTags (@coerceBody sample_runtime (as_body (env_named (Some "ai,"))))
  = [Js.Str "ai"; Js.Str ""]
  /\ uploadTags (@envRequest sample_runtime (env_named (Some "ai,")))
     = [Js.Str "ai"].
Proof. split; reflexivity. Qed.

(* ================================================================= *)
(** * Further properties *)

(** ** Trimming and [tr] *)

Lemma white_not_empty (p : string) : In p Js.white -> p <> EmptyString.
Proof.
  intros H ->.
  assert (F : forallb (fun q => negb (String.eqb q "")) Js.white = true)
    by reflexivity.
  rewrite forallb_forall in F. specialize (F _ H). discriminate F.
Qed.

Lemma strip_prefix_split (p s r : string) :
  Js.strip_prefix p s = Some r -> s = (p ++ r)%string.
Proof.
  revert s. induction p as [| a p IH]; intros s H.
  - cbn in H. inversion H. reflexivity.
  - destruct s as [| b s]; [discriminate H |].
    cbn [Js.strip_prefix] in H. destruct (Ascii.eqb a b) eqn:E; [| discriminate H].
    apply Ascii.eqb_eq in E. subst b. cbn [append]. f_equal. apply IH. exact H.
Qed.

Lemma strip_any_split (ps : list string) (s r : string) :
  Js.strip_any ps s = Some r -> exists p, In p ps /\ s = (p ++ r)%string.
Proof.
  induction ps as [| q ps IH]; [discriminate |].
  cbn [Js.strip_any]. destruct (Js.strip_prefix q s) as [r' |] eqn:E.
  - intros H. inversion H; subst r'. exists q. split; [left; reflexivity |].
    apply strip_prefix_split. exact E.
  - intros H. destruct (IH H) as (p & Hp & Hs). exists p. split; [right |]; assumption.
Qed.

Lemma strip_white_split (s r : string) :
  Js.strip_white s = Some r ->
  exists p, In p Js.white /\ s = (p ++ r)%string.
Proof. apply strip_any_split. Qed.

(** No white-space character begins another, so that the one a string
    begins with is found whatever follows. *)
Lemma strip_white_token (p rest : string) :
  In p Js.white -> Js.strip_white (p ++ rest) = Some rest.
Proof.
  intros H. unfold Js.white in H. cbn [map] in H.
  repeat (destruct H as [H | H]; [subst p; reflexivity |]).
  destruct H.
Qed.

Lemma strip_white_shorter (s r : string) :
  Js.strip_white s = Some r -> String.length r < String.length s.
Proof.
  intros H. destruct (strip_white_split s r H) as (p & Hp & ->).
  rewrite length_append.
  destruct p as [| c p]; [destruct (white_not_empty _ Hp eq_refl) |].
  cbn. lia.
Qed.

Lemma append_empty_r (s : string) : (s ++ "")%string = s.
Proof. induction s as [| c s IH]; cbn; [reflexivity | rewrite IH; reflexivity]. Qed.

Lemma append_assoc (a b c : string) :
  ((a ++ b) ++ c = a ++ (b ++ c))%string.
Proof. induction a as [| x a IH]; cbn; [reflexivity | rewrite IH; reflexivity]. Qed.

Lemma Blank_app (a b : string) : Blank a -> Blank b -> Blank (a ++ b).
Proof.
  induction 1 as [| p rest Hp Hrest IH]; intros Hb; [exact Hb |].
  rewrite append_assoc. apply Blank_more; auto.
Qed.

Lemma Blank_white (p : string) : In p Js.white -> Blank p.
Proof.
  intros H. rewrite <- (append_empty_r p). apply Blank_more; [exact H | constructor].
Qed.

Lemma trimStart_n_split (n : nat) (s : string) :
  exists pre, s = (pre ++ Js.trimStart_n n s)%string /\ Blank pre.
Proof.
  revert s. induction n as [| n IH]; intros s.
  - exists EmptyString. split; [reflexivity | constructor].
  - cbn [Js.trimStart_n]. destruct (Js.strip_white s) as [rest |] eqn:E.
    + destruct (strip_white_split s rest E) as (p & Hp & ->).
      destruct (IH rest) as (pre & Hr & Hb).
      exists (p ++ pre)%string. split.
      * rewrite append_assoc, <- Hr. reflexivity.
      * apply Blank_more; assumption.
    + exists EmptyString. split; [reflexivity | constructor].
Qed.

Lemma trimStart_n_clean (n : nat) (s : string) :
  String.length s <= n -> Js.strip_white (Js.trimStart_n n s) = None.
Proof.
  revert s. induction n as [| n IH]; intros s H.
  - destruct s; [reflexivity | cbn in H; lia].
  - cbn [Js.trimStart_n]. destruct (Js.strip_white s) as [rest |] eqn:E; [| exact E].
    apply IH. pose proof (strip_white_shorter s rest E). lia.
Qed.

Lemma trimStart_n_fuel (n m : nat) (s : string) :
  String.length s <= n -> String.length s <= m ->
  Js.trimStart_n n s = Js.trimStart_n m s.
Proof.
  revert m s. induction n as [| n IH]; intros m s Hn Hm.
  - destruct s; [destruct m; reflexivity | cbn in Hn; lia].
  - destruct m as [| m]; [destruct s; [reflexivity | cbn in Hm; lia] |].
    cbn [Js.trimStart_n]. destruct (Js.strip_white s) as [rest |] eqn:E; [| reflexivity].
    pose proof (strip_white_shorter s rest E). apply IH; lia.
Qed.

Lemma trimStart_clean (s : string) :
  Js.strip_white s = None -> Js.trimStart s = s.
Proof.
  intros H. unfold Js.trimStart.
  destruct (String.length s); cbn [Js.trimStart_n]; [| rewrite H]; reflexivity.
Qed.

Lemma trimStart_white (p rest : string) :
  In p Js.white -> Js.trimStart (p ++ rest) = Js.trimStart rest.
Proof.
  intros H. unfold Js.trimStart.
  assert (Hl : String.length rest < String.length (p ++ rest)).
  { apply strip_white_shorter. apply strip_white_token. exact H. }
  destruct (String.length (p ++ rest)) as [| n] eqn:E; [lia |].
  cbn [Js.trimStart_n]. rewrite (strip_white_token p rest H).
  apply trimStart_n_fuel; lia.
Qed.

Lemma blank_Blank (s : string) : blank s = true <-> Blank s.
Proof.
  unfold blank. split.
  - intros H. apply String.eqb_eq in H.
    destruct (trimStart_n_split (String.length s) s) as (pre & Hs & Hb).
    fold (Js.trimStart s) in Hs. rewrite H, append_empty_r in Hs. subst s. exact Hb.
  - induction 1 as [| p rest Hp Hrest IH]; [reflexivity |].
    rewrite (trimStart_white p rest Hp). exact IH.
Qed.

Lemma is_white_In (s : string) : Js.is_white s = true -> In s Js.white.
Proof.
  unfold Js.is_white. intros H. apply existsb_exists in H.
  destruct H as (p & Hp & He). apply String.eqb_eq in He. subst p. exact Hp.
Qed.

Lemma trimEnd_split (s : string) :
  exists post, s = (Js.trimEnd s ++ post)%string /\ Blank post.
Proof.
  induction s as [| c rest IH]; [exists EmptyString; split; [reflexivity | constructor] |].
  destruct IH as (post & Hs & Hb).
  cbn [Js.trimEnd]. cbv zeta.
  destruct (Js.is_white (String c (Js.trimEnd rest))) eqn:E.
  - exists (String c (Js.trimEnd rest) ++ post)%string. split.
    + cbn [append]. rewrite <- Hs. reflexivity.
    + apply Blank_more; [apply is_white_In; exact E | exact Hb].
  - exists post. split; [| exact Hb]. cbn [append]. rewrite <- Hs. reflexivity.
Qed.

Lemma trimEnd_idempotent (s : string) : Js.trimEnd (Js.trimEnd s) = Js.trimEnd s.
Proof.
  induction s as [| c rest IH]; [reflexivity |].
  cbn [Js.trimEnd]. cbv zeta.
  destruct (Js.is_white (String c (Js.trimEnd rest))) eqn:E; [reflexivity |].
  cbn [Js.trimEnd]. cbv zeta. rewrite IH, E. reflexivity.
Qed.

Lemma trimEnd_keeps_start (s : string) :
  Js.strip_white s = None -> Js.strip_white (Js.trimEnd s) = None.
Proof.
  intros H. destruct (Js.strip_white (Js.trimEnd s)) as [r |] eqn:E; [| reflexivity].
  destruct (strip_white_split _ r E) as (p & Hp & He).
  destruct (trimEnd_split s) as (post & Hs & _).
  rewrite He, append_assoc in Hs. rewrite Hs, (strip_white_token p _ Hp) in H.
  discriminate H.
Qed.

Lemma trimEnd_no_white_end (s p : string) :
  In p Js.white -> ends_with p (Js.trimEnd s) = false.
Proof.
  intros Hp. induction s as [| c rest IH].
  - cbn. destruct p; [destruct (white_not_empty _ Hp eq_refl) | reflexivity].
  - cbn [Js.trimEnd]. cbv zeta.
    destruct (Js.is_white (String c (Js.trimEnd rest))) eqn:E.
    + cbn. destruct p; [destruct (white_not_empty _ Hp eq_refl) | reflexivity].
    + cbn [ends_with]. rewrite IH, orb_false_r.
      destruct (String.eqb p (String c (Js.trimEnd rest))) eqn:Ep; [| reflexivity].
      apply String.eqb_eq in Ep. subst p.
      unfold Js.is_white in E.
      assert (Hex : existsb (String.eqb (String c (Js.trimEnd rest))) Js.white = true).
      { apply existsb_exists. eexists. split; [exact Hp | apply String.eqb_refl]. }
      rewrite Hex in E. discriminate E.
Qed.

Lemma trim_clean (s : string) :
  starts_clean (Js.trim s) = true /\ ends_clean (Js.trim s) = true.
Proof.
  unfold Js.trim, starts_clean, ends_clean. split.
  - rewrite trimEnd_keeps_start; [reflexivity |].
    apply trimStart_n_clean. apply le_n.
  - apply negb_true_iff.
    destruct (existsb (fun p => ends_with p (Js.trimEnd (Js.trimStart s))) Js.white)
      eqn:E; [| reflexivity].
    apply existsb_exists in E. destruct E as (p & Hp & He).
    rewrite (trimEnd_no_white_end _ p Hp) in He. discriminate He.
Qed.

Lemma trim_idempotent (s : string) : Js.trim (Js.trim s) = Js.trim s.
Proof.
  unfold Js.trim.
  rewrite (trimStart_clean (Js.trimEnd (Js.trimStart s))).
  - apply trimEnd_idempotent.
  - apply trimEnd_keeps_start. apply trimStart_n_clean. apply le_n.
Qed.

Lemma trim_blank (s : string) : blank s = true -> Js.trim s = EmptyString.
Proof.
  unfold blank, Js.trim. intros H. apply String.eqb_eq in H. rewrite H. reflexivity.
Qed.

Lemma trim_empty_is_blank (s : string) :
  Js.trim s = EmptyString -> blank s = true.
Proof.
  unfold Js.trim, blank. intros H.
  pose proof (trimStart_n_clean (String.length s) s (le_n _)) as Hc.
  fold (Js.trimStart s) in Hc.
  destruct (Js.trimStart s) as [| c rest]; [reflexivity |].
  cbn [Js.trimEnd] in H. cbv zeta in H.
  destruct (Js.is_white (String c (Js.trimEnd rest))) eqn:E; [| discriminate H].
  apply is_white_In in E.
  destruct (trimEnd_split rest) as (post & Hs & _).
  rewrite Hs in Hc.
  change (String c (Js.trimEnd rest ++ post))
    with (String c (Js.trimEnd rest) ++ post)%string in Hc.
  rewrite (strip_white_token _ post E) in Hc. discriminate Hc.
Qed.

Lemma trim_split (s : string) :
  exists pre post, s = (pre ++ Js.trim s ++ post)%string /\ Blank pre /\ Blank post.
Proof.
  destruct (trimStart_n_split (String.length s) s) as (pre & Hs & Hb).
  fold (Js.trimStart s) in Hs.
  destruct (trimEnd_split (Js.trimStart s)) as (post & Ht & Hp).
  exists pre, post. unfold Js.trim. rewrite <- Ht. auto.
Qed.

(** X1: what [tr] returns is the input with white space taken off both
    ends and nothing else: it is not empty, neither begins nor ends with
    a white-space character, sits in the input between two pieces of
    nothing but white space, and [tr] returns it unchanged when given it
    again. *)
Theorem tr_gives_the_trimmed_text (value : Js.value) (t : string) :
  tr value = Some t ->
  t <> EmptyString
  /\ starts_clean t = true
  /\ ends_clean t = true
  /\ (exists s pre post,
         value = Js.Str s /\ s = (pre ++ t ++ post)%string
         /\ Blank pre /\ Blank post)
  /\ tr (Js.Str t) = Some t.
Proof.
  destruct value as [| | b | n | s | items | fields]; try discriminate.
  unfold tr. destruct (Js.trim s) as [| c r] eqn:E; [discriminate |].
  intros H. inversion H as [Ht]. clear H.
  destruct (trim_clean s) as (Hs & He). rewrite E in Hs, He.
  split; [discriminate |]. split; [exact Hs |]. split; [exact He |]. split.
  - destruct (trim_split s) as (pre & post & Hsplit & Hb & Hp).
    exists s, pre, post. rewrite E in Hsplit. auto.
  - rewrite <- E, trim_idempotent, E. reflexivity.
Qed.

Lemma tr_gives_the_trimmed_text_witness :
  tr (Js.Str (Js.bytes [194; 160; 32; 120; 32; 121; 9; 226; 128; 137]))
  = Some "x y"
  /\ tr (Js.Str "x y") = Some "x y".
Proof.
  split; [reflexivity |].
  exact (proj2 (proj2 (proj2 (proj2
           (tr_gives_the_trimmed_text
              (Js.Str (Js.bytes [194; 160; 32; 120; 32; 121; 9; 226; 128; 137]))
              "x y" eq_refl))))).
Defined.

(** X2: [tr] gives undefined exactly for a value that is not a string
    and for a string of nothing but white-space characters, the empty
    string included. *)
Theorem tr_undefined_iff_blank (value : Js.value) :
  tr value = None
  <-> match value with
      | Js.Str s => Blank s
      | _ => True
      end.
Proof.
  destruct value as [| | b | n | s | items | fields]; try (split; auto; fail).
  rewrite <- blank_Blank. unfold tr. split.
  - destruct (Js.trim s) eqn:E; [intros _; apply trim_empty_is_blank; exact E |].
    discriminate.
  - intros H. rewrite (trim_blank s H). reflexivity.
Qed.

(** A no-break space alone is no value; between letters it stays. *)
Example tr_no_break_space :
  tr (Js.Str (Js.bytes [194; 160])) = None
  /\ tr (Js.Str (Js.bytes [194; 160; 120; 194; 160])) = Some "x"
  /\ tr (Js.Str (Js.bytes [120; 194; 160; 121]))
     = Some (Js.bytes [120; 194; 160; 121]).
Proof. repeat split. Qed.

(** ** Splitting into tags *)

Lemma all_chars_app (p : ascii -> bool) (a b : string) :
  all_chars p (a ++ b) = all_chars p a && all_chars p b.
Proof.
  induction a as [| c a IH]; [reflexivity |].
  cbn [append all_chars]. rewrite IH, andb_assoc. reflexivity.
Qed.

Lemma all_chars_trim (p : ascii -> bool) (s : string) :
  all_chars p s = true -> all_chars p (Js.trim s) = true.
Proof.
  destruct (trim_split s) as (pre & post & Hs & _). intros H.
  rewrite Hs, !all_chars_app in H.
  apply andb_prop in H. destruct H as (_ & H).
  apply andb_prop in H. apply H.
Qed.

Lemma split_comma_pieces (s : string) :
  forallb no_comma (Js.split_comma s) = true.
Proof.
  induction s as [| c rest IH]; [reflexivity |].
  cbn [Js.split_comma]. destruct (Ascii.eqb c Js.comma) eqn:E.
  - cbn [forallb]. rewrite IH. reflexivity.
  - destruct (Js.split_comma rest) as [| piece pieces]; [cbn; rewrite E; reflexivity |].
    cbn [forallb] in *. apply andb_prop in IH. destruct IH as (Hp & Hps).
    unfold no_comma in *. cbn [all_chars]. rewrite E, Hp, Hps. reflexivity.
Qed.

Lemma split_delims_pieces (s : string) (in_run : bool) :
  forallb no_delim (Js.split_delims_from in_run s) = true.
Proof.
  revert in_run. induction s as [| c rest IH]; intros in_run; [reflexivity |].
  cbn [Js.split_delims_from]. destruct (Js.is_delim c) eqn:E.
  - destruct in_run; [apply IH |]. cbn [forallb]. rewrite IH. reflexivity.
  - specialize (IH false).
    destruct (Js.split_delims_from false rest) as [| piece pieces];
      [cbn; rewrite E; reflexivity |].
    cbn [forallb] in *. apply andb_prop in IH. destruct IH as (Hp & Hps).
    unfold no_delim in *. cbn [all_chars]. rewrite E, Hp, Hps. reflexivity.
Qed.

Lemma split_delims_cons (s : string) :
  exists piece pieces, Js.split_delims s = piece :: pieces.
Proof.
  unfold Js.split_delims. destruct s as [| c rest]; cbn; [eauto |].
  destruct (Js.is_delim c); [eauto |].
  destruct (Js.split_delims_from false rest); eauto.
Qed.

Lemma trimmed_trim (s : string) : trimmed (Js.trim s) = true.
Proof. unfold trimmed. rewrite trim_idempotent. apply String.eqb_refl. Qed.

Lemma forallb_map (A B : Type) (f : A -> B) (p : B -> bool) (l : list A) :
  forallb p (map f l) = forallb (fun x => p (f x)) l.
Proof. induction l as [| x l IH]; simpl; [reflexivity | rewrite IH; reflexivity]. Qed.

Lemma forallb_impl (A : Type) (p q : A -> bool) (l : list A) :
  (forall x, p x = true -> q x = true) ->
  forallb p l = true -> forallb q l = true.
Proof.
  intros Hpq. induction l as [| x l IH]; simpl; [auto |].
  intros H. apply andb_prop in H. destruct H as (Hx & Hl).
  rewrite (Hpq x Hx), (IH Hl). reflexivity.
Qed.

Lemma forallb_filter (A : Type) (p q : A -> bool) (l : list A) :
  forallb p l = true -> forallb (fun x => p x && q x) (filter q l) = true.
Proof.
  induction l as [| x l IH]; simpl; [auto |].
  intros H. apply andb_prop in H. destruct H as (Hx & Hl).
  destruct (q x) eqn:E; [| apply IH; exact Hl].
  simpl. rewrite Hx, E, (IH Hl). reflexivity.
Qed.

(** X3: the tags that [coerceBody] makes of a text are never an empty
    list, and each is a trimmed text without comma or newline inside. *)
Theorem coerceBody_tags_of_text {runtime : Runtime} (body : Js.value) (s : string) :
  Js.get body "uploadTags" = Js.Str s ->
  uploadTags (coerceBody body) <> []
  /\ forallb (is_str (fun tag => trimmed tag && no_delim tag))
             (uploadTags (coerceBody body)) = true.
Proof.
  intros H. unfold coerceBody; cbn [uploadTags]. rewrite H. split.
  - destruct (split_delims_cons s) as (p & ps & ->). discriminate.
  - rewrite forallb_map. cbn [is_str].
    apply (forallb_impl _ no_delim); [| apply split_delims_pieces].
    intros p Hp. rewrite trimmed_trim. apply (all_chars_trim _ p Hp).
Qed.

Lemma coerceBody_tags_of_text_witness :
  uploadTags (@coerceBody sample_runtime
                (Js.Obj [("uploadTags", Js.Str "ai, ,chips")]))
  = [Js.Str "ai"; Js.Str ""; Js.Str "chips"]
  /\ uploadTags (@coerceBody sample_runtime
                   (Js.Obj [("uploadTags", Js.Str "ai, ,chips")])) <> [].
Proof.
  split; [reflexivity |].
  exact (proj1 (@coerceBody_tags_of_text sample_runtime
                  (Js.Obj [("uploadTags", Js.Str "ai, ,chips")]) _ eq_refl)).
Defined.

Lemma nonblank_tidy (s : string) :
  trimmed s = true -> Configurator.nonblank s = true -> tidy s = true.
Proof. unfold tidy, Configurator.nonblank. intros -> ->. reflexivity. Qed.

(** X4: the tags that [deriveFromEnv] makes of PIPELINE_UPLOAD_TAGS are
    all texts that are trimmed, not empty and without a comma; with the
    variable unset the list is empty. *)
Theorem env_tags_are_clean {runtime : Runtime} (env : ProcessEnv) :
  forallb (is_str (fun tag => tidy tag && no_comma tag))
          (uploadTags (envRequest env)) = true
  /\ (PIPELINE_UPLOAD_TAGS env = None -> uploadTags (envRequest env) = []).
Proof.
  unfold envRequest; cbn [uploadTags].
  destruct (PIPELINE_UPLOAD_TAGS env) as [s |]; [| split; reflexivity].
  split; [| discriminate].
  rewrite forallb_map. cbn [is_str].
  assert (H : forallb (fun t => trimmed t && no_comma t)
                      (map Js.trim (Js.split_comma s)) = true).
  { rewrite forallb_map. apply (forallb_impl _ no_comma); [| apply split_comma_pieces].
    intros p Hp. rewrite trimmed_trim. apply (all_chars_trim _ p Hp). }
  apply (forallb_filter _ _ (fun tag => negb (String.eqb tag ""))) in H.
  revert H. apply forallb_impl. intros t Ht.
  apply andb_prop in Ht. destruct Ht as (Ht & Hn).
  apply andb_prop in Ht. destruct Ht as (Ht & Hc).
  rewrite (nonblank_tidy t Ht Hn), Hc. reflexivity.
Qed.

(** X5: the tags that [handleTagInput] sets are all trimmed, not empty
    and without comma or newline; they are what [coerceBody] makes of
    the same text with the empty tags taken out. *)
Theorem handleTagInput_is_clean {runtime : Runtime} (input : string) :
  forallb clean_tag (Configurator.handleTagInput input) = true
  /\ map Js.Str (Configurator.handleTagInput input)
     = filter (fun v => negb (is_str (String.eqb "") v))
              (uploadTags (coerceBody (Js.Obj [("uploadTags", Js.Str input)]))).
Proof.
  split.
  - unfold Configurator.handleTagInput.
    assert (H : forallb (fun t => trimmed t && no_delim t)
                        (map Js.trim (Js.split_delims input)) = true).
    { rewrite forallb_map.
      apply (forallb_impl _ no_delim); [| apply split_delims_pieces].
      intros p Hp. rewrite trimmed_trim. apply (all_chars_trim _ p Hp). }
    apply (forallb_filter _ _ Configurator.nonblank) in H.
    revert H. apply forallb_impl. intros t Ht. unfold clean_tag.
    apply andb_prop in Ht. destruct Ht as (Ht & Hn).
    apply andb_prop in Ht. destruct Ht as (Ht & Hc).
    rewrite (nonblank_tidy t Ht Hn), Hc. reflexivity.
  - unfold coerceBody; cbn [uploadTags Js.get Js.lookup].
    rewrite String.eqb_refl.
    unfold Configurator.handleTagInput.
    induction (Js.split_delims input) as [| p ps IH]; [reflexivity |].
    cbn [map filter is_str]. unfold Configurator.nonblank at 1.
    rewrite (String.eqb_sym (Js.trim p) "").
    destruct (String.eqb "" (Js.trim p)); cbn [negb map]; rewrite IH; reflexivity.
Qed.

(** ** The tag field shows what it parses *)

Lemma split_delims_whole (t : string) (in_run : bool) :
  no_delim t = true -> Js.split_delims_from in_run t = [t].
Proof.
  unfold no_delim. revert in_run.
  induction t as [| c t IH]; intros in_run H; [reflexivity |].
  cbn [all_chars] in H. apply andb_prop in H. destruct H as (Hc & Ht).
  apply negb_true_iff in Hc.
  cbn [Js.split_delims_from]. rewrite Hc, (IH false Ht). reflexivity.
Qed.

Lemma split_delims_piece (c : ascii) (t u : string) (in_run : bool) :
  no_delim (String c t) = true ->
  Js.split_delims_from in_run (String c t ++ String Js.comma u)
  = String c t :: Js.split_delims_from true u.
Proof.
  unfold no_delim. revert c in_run.
  induction t as [| d t IH]; intros c in_run H;
    cbn [all_chars] in H; apply andb_prop in H; destruct H as (Hc & Ht);
    apply negb_true_iff in Hc.
  - cbn [append Js.split_delims_from]. rewrite Hc.
    change (Js.is_delim Js.comma) with true. cbn. reflexivity.
  - change (String c (String d t) ++ String Js.comma u)%string
      with (String c (String d t ++ String Js.comma u)).
    cbn [Js.split_delims_from]. rewrite Hc.
    rewrite (IH d false Ht). reflexivity.
Qed.

Lemma trim_after_space (t : string) :
  Js.trim (String " " t) = Js.trim t.
Proof.
  unfold Js.trim. change (String " " t) with (" " ++ t)%string.
  rewrite trimStart_white; [reflexivity |]. unfold Js.white. cbn. tauto.
Qed.

Lemma clean_tag_inv (t : string) :
  clean_tag t = true ->
  Js.trim t = t /\ no_delim t = true /\ exists c r, t = String c r.
Proof.
  unfold clean_tag, tidy, trimmed. intros H.
  apply andb_prop in H. destruct H as (H & Hd).
  apply andb_prop in H. destruct H as (Ht & Hn).
  apply String.eqb_eq in Ht.
  repeat split; auto.
  destruct t; [discriminate Hn | eauto].
Qed.

Lemma app_assoc_string (a b c : string) :
  ((a ++ b) ++ c = a ++ (b ++ c))%string.
Proof. induction a as [| x a IH]; cbn; [reflexivity | rewrite IH; reflexivity]. Qed.

(** Splitting a joined list of clean tags gives the tags back, also
    after a separator and behind a space. *)
Lemma split_join (tags : list string) :
  forallb clean_tag tags = true -> tags <> [] ->
  forall (in_run : bool) (pre : string),
    pre = EmptyString \/ pre = " " ->
    map Js.trim (Js.split_delims_from in_run (pre ++ Configurator.join ", " tags))
    = tags.
Proof.
  induction tags as [| t rest IH]; intros Hall Hne in_run pre Hpre; [contradiction |].
  cbn [forallb] in Hall. apply andb_prop in Hall. destruct Hall as (Ht & Hrest).
  destruct (clean_tag_inv t Ht) as (Htrim & Hd & c & r & Hcr).
  assert (Hpiece : exists c' r', (pre ++ t)%string = String c' r'
                                 /\ no_delim (String c' r') = true
                                 /\ Js.trim (String c' r') = t).
  { destruct Hpre as [-> | ->].
    - exists c, r. rewrite <- Hcr. cbn [append]. auto.
    - exists " "%char, t. cbn [append]. repeat split.
      + unfold no_delim in *. cbn [all_chars]. rewrite Hd. reflexivity.
      + rewrite trim_after_space. exact Htrim. }
  destruct Hpiece as (c' & r' & Hp & Hpd & Hpt).
  destruct rest as [| t2 rest'].
  - cbn [Configurator.join]. rewrite Hp.
    rewrite (split_delims_whole _ in_run Hpd). cbn [map]. rewrite Hpt. reflexivity.
  - change (Configurator.join ", " (t :: t2 :: rest'))
      with (t ++ ", " ++ Configurator.join ", " (t2 :: rest'))%string.
    rewrite <- app_assoc_string, Hp.
    change (", " ++ Configurator.join ", " (t2 :: rest'))%string
      with (String Js.comma (" " ++ Configurator.join ", " (t2 :: rest'))).
    rewrite (split_delims_piece c' r' _ in_run Hpd).
    cbn [map]. rewrite Hpt. f_equal.
    apply IH; [exact Hrest | discriminate | right; reflexivity].
Qed.

(** X6: the Tags field is a round trip on clean tags: what the text area
    shows for a list of tags (joined by comma and space), typed back
    through [handleTagInput], is the same list; for no list at all, and for
    the empty list, it is the empty list. *)
Theorem tag_field_round_trip (tags : list string) :
  forallb clean_tag tags = true ->
  Configurator.handleTagInput (Configurator.tagsValue (Some tags)) = tags
  /\ Configurator.handleTagInput (Configurator.tagsValue None) = [].
Proof.
  intros Hall. split; [| reflexivity].
  unfold Configurator.handleTagInput, Configurator.tagsValue, Js.split_delims.
  destruct tags as [| t rest]; [reflexivity |].
  change (Configurator.join ", " (t :: rest))
    with (EmptyString ++ Configurator.join ", " (t :: rest))%string.
  rewrite (split_join (t :: rest) Hall ltac:(discriminate) false EmptyString
             (or_introl eq_refl)).
  apply filter_all. revert Hall. apply forallb_impl.
  intros x Hx. destruct (clean_tag_inv x Hx) as (_ & _ & c & r & ->). reflexivity.
Qed.

Lemma tag_field_round_trip_witness :
  Configurator.tagsValue (Some ["ai"; "daily news"; "chips"])
  = "ai, daily news, chips"
  /\ Configurator.handleTagInput "ai, daily news, chips"
     = ["ai"; "daily news"; "chips"].
Proof.
  split; [reflexivity |].
  exact (proj1 (tag_field_round_trip ["ai"; "daily news"; "chips"] eq_refl)).
Defined.

(** A tag with a comma inside does not survive the round trip. *)
Example tag_with_comma_is_split :
  Configurator.handleTagInput (Configurator.tagsValue (Some ["a,b"])) = ["a"; "b"].
Proof. reflexivity. Qed.

(** ** More on coercion *)

Section MoreCoercion.

Context {runtime : Runtime}.

Lemma coerceNumber_again (input : Js.value) (fallback : Js.num) :
  positive fallback = true ->
  positive (coerceNumber input fallback) = true
  /\ coerceNumber (Js.Num (coerceNumber input fallback)) fallback
     = coerceNumber input fallback.
Proof.
  intros Hf.
  assert (Hp : positive (coerceNumber input fallback) = true).
  { rewrite coerceNumber_reading.
    destruct (positive (reading input)) eqn:E; [exact E | exact Hf]. }
  split; [exact Hp |].
  rewrite (coerceNumber_reading (Js.Num _)). cbn [reading]. rewrite Hp. reflexivity.
Qed.

(** X7: with a fallback that is finite and above zero, [coerceNumber]
    always returns a finite number above zero, it returns its own result
    unchanged when given it again, and it returns the fallback for every
    input that is neither a number nor a string (a boolean, null, an
    array, an object, undefined). *)
Theorem coerceNumber_settles (input : Js.value) (fallback : Js.num) :
  positive fallback = true ->
  positive (coerceNumber input fallback) = true
  /\ coerceNumber (Js.Num (coerceNumber input fallback)) fallback
     = coerceNumber input fallback
  /\ ((forall n, input <> Js.Num n) -> (forall s, input <> Js.Str s) ->
      coerceNumber input fallback = fallback).
Proof.
  intros Hf. destruct (coerceNumber_again input fallback Hf) as (Hp & Hi).
  split; [exact Hp |]. split; [exact Hi |].
  intros Hn Hs. destruct input; try reflexivity.
  - destruct (Hn n eq_refl).
  - destruct (Hs s eq_refl).
Qed.

Lemma tr_of_tr (v : Js.value) : tr (env_value (tr v)) = tr v.
Proof.
  destruct (tr v) as [t |] eqn:E; [| reflexivity].
  cbn [env_value]. destruct v; try discriminate.
  unfold tr in *. destruct (Js.trim s) as [| c r] eqn:Et; [discriminate |].
  inversion E; subst t. rewrite <- Et, trim_idempotent, Et. reflexivity.
Qed.

Lemma tr_of_default (v : Js.value) (d : string) :
  orElse (tr (Js.Str d)) d = d ->
  orElse (tr (Js.Str (orElse (tr v) d))) d = orElse (tr v) d.
Proof.
  intros Hd. destruct (tr v) as [t |] eqn:E; cbn [orElse]; [| exact Hd].
  change (Js.Str t) with (env_value (Some t)). rewrite <- E, tr_of_tr, E.
  reflexivity.
Qed.

Lemma coerced_visibility_member (body : Js.value) :
  SpecSchema.is_visibility (visibility (coerceBody body)) = true.
Proof.
  rewrite coerced_visibility.
  destruct (tr (Js.get body "visibility")) as [v |]; [| reflexivity].
  destruct (SpecSchema.is_visibility v) eqn:E; [exact E | reflexivity].
Qed.

Lemma coerced_preset_member (body : Js.value) :
  SpecSchema.is_preset (preset (coerceBody body)) = true.
Proof.
  rewrite coerced_preset.
  destruct (tr (Js.get body "preset")) as [p |]; [| reflexivity].
  destruct (SpecSchema.is_preset p) eqn:E; [exact E | reflexivity].
Qed.

Ltac read_request :=
  unfold request_body, Js.get;
  pass_others;
  first [ rewrite lookup_prop_same;
          match goal with
          | |- context [match ?v with Some _ => _ | None => _ end] => destruct v
          end;
          [reflexivity | pass_others; reflexivity]
        | reflexivity ].

(** What [body?.key] finds in the body that carries a request. *)
Lemma get_request_body (r : PipelineRunRequest) :
  Js.get (request_body r) "openaiKey" = env_value (openaiKey r)
  /\ Js.get (request_body r) "elevenLabsKey" = env_value (elevenLabsKey r)
  /\ Js.get (request_body r) "pexelsKey" = env_value (pexelsKey r)
  /\ Js.get (request_body r) "youtubeClientId" = env_value (youtubeClientId r)
  /\ Js.get (request_body r) "youtubeClientSecret"
     = env_value (youtubeClientSecret r)
  /\ Js.get (request_body r) "youtubeRefreshToken"
     = env_value (youtubeRefreshToken r)
  /\ Js.get (request_body r) "voiceId" = Js.Str (voiceId r)
  /\ Js.get (request_body r) "videoTopic" = Js.Str (videoTopic r)
  /\ Js.get (request_body r) "targetDurationSeconds"
     = Js.Num (targetDurationSeconds r)
  /\ Js.get (request_body r) "uploadTitleTemplate"
     = Js.Str (uploadTitleTemplate r)
  /\ Js.get (request_body r) "uploadDescriptionTemplate"
     = Js.Str (uploadDescriptionTemplate r)
  /\ Js.get (request_body r) "uploadTags" = Js.Arr (uploadTags r)
  /\ Js.get (request_body r) "visibility" = Js.Str (visibility r)
  /\ Js.get (request_body r) "allowCopyrightAudio"
     = Js.Bool (allowCopyrightAudio r)
  /\ Js.get (request_body r) "preset" = Js.Str (preset r)
  /\ Js.get (request_body r) "webhookUrl" = Js.Str (webhookUrl r)
  /\ Js.get (request_body r) "runContext" = Js.Str (runContext r)
  /\ Js.get (request_body r) "extraInstructions" = Js.Str (extraInstructions r).
Proof. repeat split; read_request. Qed.

(** X8: coercion is a normal form: the request that [coerceBody] builds,
    sent again as a JSON body, is coerced to itself. *)
Theorem coerceBody_is_idempotent (body : Js.value) :
  coerceBody (request_body (coerceBody body)) = coerceBody body.
Proof.
  destruct (get_request_body (coerceBody body))
    as (G1 & G2 & G3 & G4 & G5 & G6 & G7 & G8 & G9 & G10 & G11 & G12 & G13
        & G14 & G15 & G16 & G17 & G18).
  pose proof (coerced_visibility_member body) as Hv.
  pose proof (coerced_preset_member body) as Hp.
  unfold coerceBody at 1.
  rewrite G1, G2, G3, G4, G5, G6, G7, G8, G9, G10, G11, G12, G13, G14, G15,
    G16, G17, G18.
  rewrite (tr_tidy _ (visibility_tidy _ Hv)), visibility_cases, Hv.
  rewrite (tr_tidy _ (preset_tidy _ Hp)), preset_cases, Hp.
  unfold coerceBody in *.
  cbn [openaiKey elevenLabsKey pexelsKey youtubeClientId youtubeClientSecret
       youtubeRefreshToken voiceId videoTopic targetDurationSeconds
       uploadTitleTemplate uploadDescriptionTemplate uploadTags visibility
       allowCopyrightAudio preset webhookUrl runContext extraInstructions] in *.
  rewrite !tr_of_tr.
  rewrite !tr_of_default by reflexivity.
  rewrite (proj2 (coerceNumber_again _ (Js.of_Z 120) eq_refl)).
  cbn [Js.truthy].
  reflexivity.
Qed.

Lemma get_of_other (body : Js.value) (key : string) :
  is_object body = false -> Js.get body key = Js.Undefined.
Proof. destruct body; try reflexivity. discriminate. Qed.

(** X9: a body that is not an object (null, a number, a text, a boolean,
    an array) is coerced like the empty object, to the request of the
    defaults: no credential, the default voice, topic and templates, 120
    seconds, no tags, unlisted, the news preset. *)
Theorem coerceBody_without_object (body : Js.value) :
  is_object body = false ->
  coerceBody body = fallback_request
  /\ coerceBody body = coerceBody (Js.Obj []).
Proof.
  intros H. unfold coerceBody. rewrite !(get_of_other body _ H).
  split; reflexivity.
Qed.

(** X10: the audio flag is read differently on the two paths: from a
    body, every text but the empty one switches it on; from the
    environment, the text [true] alone does. *)
Theorem copy_audio_flag (body : Js.value) (env : ProcessEnv) (s : string) :
  Js.get body "allowCopyrightAudio" = Js.Str s ->
  PIPELINE_ALLOW_COPY_AUDIO env = Some s ->
  allowCopyrightAudio (coerceBody body) = negb (String.eqb s "")
  /\ allowCopyrightAudio (envRequest env) = String.eqb s "true".
Proof.
  intros Hb He. unfold coerceBody, envRequest; cbn [allowCopyrightAudio].
  rewrite Hb, He. split; reflexivity.
Qed.

End MoreCoercion.

Lemma coerceNumber_settles_witness :
  @coerceNumber sample_runtime (Js.Str "90") (Js.of_Z 120) = Js.of_Z 90
  /\ @coerceNumber sample_runtime
       (Js.Num (@coerceNumber sample_runtime (Js.Str "90") (Js.of_Z 120)))
       (Js.of_Z 120)
     = @coerceNumber sample_runtime (Js.Str "90") (Js.of_Z 120).
Proof.
  split; [reflexivity |].
  exact (proj1 (proj2 (@coerceNumber_settles sample_runtime (Js.Str "90")
                         (Js.of_Z 120) eq_refl))).
Defined.

Lemma coerceBody_without_object_witness :
  @coerceBody sample_runtime Js.Null = fallback_request
  /\ @coerceBody sample_runtime Js.Null = @coerceBody sample_runtime (Js.Obj []).
Proof. exact (@coerceBody_without_object sample_runtime Js.Null eq_refl). Defined.

Lemma copy_audio_flag_witness :
  allowCopyrightAudio
    (@coerceBody sample_runtime (Js.Obj [("allowCopyrightAudio", Js.Str "false")]))
  = true
  /\ allowCopyrightAudio (@envRequest sample_runtime (env_flag "false")) = false.
Proof.
  exact (@copy_audio_flag sample_runtime
           (Js.Obj [("allowCopyrightAudio", Js.Str "false")]) (env_flag "false")
           "false" eq_refl eq_refl).
Defined.

(** ** The stream under any consumer *)

(** The scenario of a cancelled run at the consumer's side: the consumer
    reads the four messages up to the Narration summary and cancels.  The
    message that waited, the Footage announcement, is dropped; Script
    and Narration are the only stages that ever start. *)
Example consumer_cancels_after_narration (later : list Act) :
  let g := @createPipeline sample_runtime
             (@coerceBody sample_runtime Sample.body_credentials) in
  let r := @consume sample_runtime ([Read; Read; Read; Read; Abort] ++ later)
             (new_stream g) in
  started (source r) = [Script; Narration]
  /\ List.length (received r) = 4
  /\ List.length (enqueued (source r)) = 5
  /\ waiting r = [].
Proof.
  intros g r. subst r. unfold consume. rewrite fold_left_app.
  set (r0 := fold_left act [Read; Read; Read; Read; Abort] (get_reader (new_stream g))).
  assert (H0 : started (source r0) = [Script; Narration]
               /\ List.length (received r0) = 4
               /\ List.length (enqueued (source r0)) = 5
               /\ waiting r0 = []
               /\ readable (source r0) = false).
  { repeat split. }
  clearbody r0. revert r0 H0.
  induction later as [| a later IH]; intros r0 (H1 & H2 & H3 & H4 & H5);
    [repeat split; assumption |].
  cbn [fold_left]. apply IH. destruct a; cbn [act].
  - rewrite H4. repeat split; assumption.
  - cbn [source taken received].
    destruct (cancel_quiet (source r0)) as (Cs & Cq).
    rewrite Cs, Cq, cancel_unreadable. unfold waiting.
    cbn [source taken received]. rewrite Cq, skipn_all.
    repeat split; assumption.
Qed.

Section MoreStream.

Context {runtime : Runtime}.



(** X12: the stream is closed only when everything is through, whatever
    calls the run-time made to its source: a closed stream holds the
    whole transcript, its last message is the final one (the sentinel,
    or the made-up event of a throw), and every stage of the run was
    started. *)
Theorem closed_stream_is_complete (g : Gen) (ops : list Op) :
  closed (stream_run ops (new_stream g)) = true ->
  enqueued (stream_run ops (new_stream g))
  = map (fun e => sse (JSON_stringify e)) (Generator.events g) ++ [final_chunk g]
  /\ last (enqueued (stream_run ops (new_stream g))) EmptyString = final_chunk g
  /\ started (stream_run ops (new_stream g)) = Generator.stages g.
Proof.
  intros H. destruct (stream_trace g ops) as (n & _ & Hq & Hs & _ & Hc).
  specialize (Hc H).
  rewrite Hq, Hs, (nexts_all n g Hc).
  rewrite firstn_all2 by (rewrite transcript_length; lia).
  split; [reflexivity |]. split; [| reflexivity].
  unfold transcript. apply last_last.
Qed.

(** X13: the two handlers tell the same story of one run, once the
    pipeline is constructed: the events in
    the report of GET are, message by message, what the drained stream of
    POST carries before its final message; the report is [ok] when that
    final message is the sentinel, and carries the message of the thrown
    value when it is the made-up event. *)
Theorem transports_agree (env : ProcessEnv) (json : Js.value)
        (data : PipelineRunRequest) (n : nat) :
  deriveFromEnv env = inl data ->
  safeParse (coerceBody json) = Zod.Success data ->
  startFailure data = None ->
  Generator.yields (createPipeline data) < n ->
  exists ok message code events stream,
    GET env = inl (JsonResponse (CronReport ok message events) code)
    /\ POST (inl json) = EventStream stream
    /\ enqueued (drive n stream)
       = map (fun e => sse (JSON_stringify e)) events
         ++ [final_chunk (createPipeline data)]
    /\ (ok = true -> final_chunk (createPipeline data) = sse "[DONE]")
    /\ (ok = false ->
        exists err,
          final_chunk (createPipeline data)
          = sse (JSON_stringify (fatal_event err))
          /\ message
             = Some (error_message err "Pipeline failed during cron execution")).
Proof.
  intros He Hj Hstart Hn. unfold GET, POST. rewrite He, Hj, Hstart.
  rewrite for_await_collects. cbn [app].
  destruct (drive_drained (createPipeline data) n Hn) as (Hq & _).
  unfold final_chunk.
  destruct (Generator.outcome (createPipeline data)) as [err |] eqn:Ho.
  - do 5 eexists. split; [reflexivity |]. split; [reflexivity |].
    split; [rewrite Hq; unfold transcript, final_chunk; rewrite Ho; reflexivity |].
    split; [discriminate |]. intros _. exists err. auto.
  - do 5 eexists. split; [reflexivity |]. split; [reflexivity |].
    split; [rewrite Hq; unfold transcript, final_chunk; rewrite Ho; reflexivity |].
    split; [reflexivity | discriminate].
Qed.

End MoreStream.

Lemma closed_stream_is_complete_witness :
  enqueued (@stream_run broken_runtime [Demand; Demand; Cancel; Demand]
              (new_stream (Sample.broken fallback_request)))
  = map (fun e => sse (Sample.stringify e))
        (Generator.events (Sample.broken fallback_request))
    ++ [@final_chunk broken_runtime (Sample.broken fallback_request)]
  /\ started (@stream_run broken_runtime [Demand; Demand; Cancel; Demand]
                (new_stream (Sample.broken fallback_request)))
     = [Script].
Proof.
  destruct (@closed_stream_is_complete broken_runtime
              (Sample.broken fallback_request)
              [Demand; Demand; Cancel; Demand] eq_refl) as (Hq & _ & Hs).
  split; [exact Hq | exact Hs].
Defined.

Lemma transports_agree_witness :
  exists ok message code events stream,
    @GET sample_runtime (env_named (Some "ai, chips"))
    = inl (JsonResponse (CronReport ok message events) code)
    /\ @POST sample_runtime (inl (as_body (env_named (Some "ai, chips"))))
       = EventStream stream
    /\ enqueued (@drive sample_runtime 11 stream)
       = map (fun e => sse (Sample.stringify e)) events
         ++ [@final_chunk sample_runtime
               (@createPipeline sample_runtime
                  (@envRequest sample_runtime (env_named (Some "ai, chips"))))].
Proof.
  destruct (@transports_agree sample_runtime (env_named (Some "ai, chips"))
              (as_body (env_named (Some "ai, chips"))) _ 11 eq_refl eq_refl eq_refl
              (proj1 (Nat.ltb_lt 10 11) eq_refl))
    as (ok & message & code & events & stream & HG & HP & Hq & _).
  exists ok, message, code, events, stream. auto.
Defined.

(** ** The status feed *)

Lemma set_key_fresh (key : string) (flag : bool) (entries : list (string * bool)) :
  ~ In key (map fst entries) ->
  Feed.set_key key flag entries = entries ++ [(key, flag)].
Proof.
  induction entries as [| [k f] rest IH]; intros H; [reflexivity |].
  cbn [Feed.set_key]. cbn [map fst In] in H.
  destruct (String.eqb k key) eqn:E.
  - apply String.eqb_eq in E. destruct H. left. exact E.
  - rewrite IH by tauto. reflexivity.
Qed.

Lemma object_of_from (entries acc : list (string * bool)) :
  NoDup (map fst (acc ++ entries)) ->
  fold_left (fun a entry => Feed.set_key (fst entry) (snd entry) a) entries acc
  = acc ++ entries.
Proof.
  revert acc. induction entries as [| [k f] rest IH]; intros acc H.
  - rewrite app_nil_r. reflexivity.
  - cbn [fold_left fst snd].
    assert (Hk : ~ In k (map fst acc)).
    { rewrite map_app in H. cbn [map fst] in H.
      apply NoDup_remove_2 in H. intros Hin. apply H.
      apply in_or_app. left. exact Hin. }
    rewrite (set_key_fresh k f acc Hk).
    change ((k, f) :: rest) with ([(k, f)] ++ rest) in H.
    rewrite app_assoc in H. rewrite (IH _ H), <- app_assoc. reflexivity.
Qed.

(** With keys that differ from one another the object lists the entries
    as they are written. *)
Lemma object_of_distinct (entries : list (string * bool)) :
  NoDup (map fst entries) -> Feed.object_of entries = entries.
Proof. intros H. apply (object_of_from entries [] H). Qed.

Lemma map_injective_on (A B : Type) (f : A -> B) (l : list A) (a b : A) :
  NoDup (map f l) -> In a l -> In b l -> f a = f b -> a = b.
Proof.
  induction l as [| x l IH]; intros Hnd Ha Hb Hf; [destruct Ha |].
  cbn [map] in Hnd. inversion Hnd as [| y ys Hx Hrest]; subst.
  destruct Ha as [-> | Ha], Hb as [-> | Hb].
  - reflexivity.
  - destruct Hx. rewrite Hf. apply in_map. exact Hb.
  - destruct Hx. rewrite <- Hf. apply in_map. exact Ha.
  - apply IH; assumption.
Qed.

Lemma status_class_listed (s : Status) :
  In (Feed.status_class s) ["success"; "error"; "progress"; "info"; "uploading"].
Proof. destruct s; cbn; tauto. Qed.

Lemma status_class_injective (a b : Status) :
  Feed.status_class a = Feed.status_class b -> a = b.
Proof. destruct a, b; first [reflexivity | discriminate]. Qed.

Section FeedFacts.

Variable styles : string -> string.
Variable formatTime : string -> string.
Variable show_meta : list (string * Js.value) -> string.

Lemma NoDup_map_Some (l : list string) : NoDup l -> NoDup (map Some l).
Proof.
  induction 1 as [| x l Hx Hl IH]; cbn; constructor; [| exact IH].
  intros Hin. apply in_map_iff in Hin. destruct Hin as (y & Hy & Hin).
  inversion Hy; subst. exact (Hx Hin).
Qed.

(** X15: the feed shows every log once, as an article, in the order of
    the logs and under the log's id as key, so that logs with distinct
    ids get distinct keys; below its header line a row has the detail
    paragraph exactly when the detail is a text that is not empty, and
    the metadata block exactly when there is metadata. *)
Theorem feed_shows_every_log (logs : list RunEvent) (active : bool) :
  let rows :=
    Feed.rows_of (Feed.StatusFeed styles formatTime show_meta logs active) in
  map Feed.key_of rows = map (fun log => Some (id log)) logs
  /\ map Feed.tag_of rows = map (fun _ => "article") logs
  /\ (NoDup (map id logs) -> NoDup (map Feed.key_of rows))
  /\ map (fun r => Feed.has_tag "p" (Feed.parts_of r)) rows
     = map (fun log => match detail log with
                       | Some d => negb (String.eqb d "")
                       | None => false
                       end) logs
  /\ map (fun r => Feed.has_tag "pre" (Feed.parts_of r)) rows
     = map (fun log => match meta log with
                       | Some _ => true
                       | None => false
                       end) logs.
Proof.
  intros rows. subst rows. unfold Feed.StatusFeed, Feed.rows_of. cbn [Feed.children_of nth].
  assert (Hk : map Feed.key_of (map (Feed.row styles formatTime show_meta) logs)
               = map (fun log => Some (id log)) logs).
  { rewrite map_map. reflexivity. }
  split; [exact Hk |]. split; [rewrite map_map; reflexivity |]. split; [| split].
  - intros Hnd. rewrite Hk, <- (map_map id Some). apply NoDup_map_Some. exact Hnd.
  - rewrite map_map. apply map_ext. intros log.
    unfold Feed.parts_of, Feed.row, Feed.detail_part, Feed.meta_part.
    cbn [Feed.children_of nth app tl].
    destruct (detail log) as [d |], (meta log) as [m |];
      try (destruct (String.eqb d "")); reflexivity.
  - rewrite map_map. apply map_ext. intros log.
    unfold Feed.parts_of, Feed.row, Feed.detail_part, Feed.meta_part.
    cbn [Feed.children_of nth app tl].
    destruct (detail log) as [d |], (meta log) as [m |];
      try (destruct (String.eqb d "")); reflexivity.
Qed.

Lemma named (name : string) :
  (forall n, styles n <> EmptyString) ->
  negb (String.eqb (styles name) "") = true.
Proof.
  intros H. apply negb_true_iff, String.eqb_neq, H.
Qed.

(** X16: when the style sheet gives the five status names five different
    classes, [running] and [idle] two different classes, and no name the
    empty class, then of the five status classes a pip carries exactly
    one, the one of its log's status, after the base class, so that pips
    with the same classes belong to logs of the same status; and the
    badge carries exactly one of the classes of [running] and [idle],
    the one its text names. *)
Theorem pip_and_badge_classes (log other : RunEvent) (active : bool) :
  NoDup (map styles ["success"; "error"; "progress"; "info"; "uploading"]) ->
  styles "running" <> styles "idle" ->
  (forall name, styles name <> EmptyString) ->
  Feed.classes_of (Feed.pip styles log)
  = [styles "pip"; styles (Feed.status_class (status log))]
  /\ (Feed.classes_of (Feed.pip styles log)
      = Feed.classes_of (Feed.pip styles other) ->
      status log = status other)
  /\ Feed.classes_of (Feed.badge styles active)
     = [styles "badge"; styles (if active then "running" else "idle")]
  /\ Feed.children_of (Feed.badge styles active)
     = [Feed.Text (if active then "running" else "idle")].
Proof.
  intros Hfive Htwo Hname.
  assert (Hpip : forall l, Feed.classes_of (Feed.pip styles l)
                           = [styles "pip"; styles (Feed.status_class (status l))]).
  { intros l. unfold Feed.pip, Feed.classNames. cbn [Feed.classes_of].
    rewrite object_of_distinct by exact Hfive.
    destruct (status l);
      repeat match goal with
             | |- context [Feed.is_status ?a ?b] =>
                 let v := eval vm_compute in (Feed.is_status a b) in
                 change (Feed.is_status a b) with v
             end;
      cbn [Feed.status_class filter snd map fst];
      rewrite !named by exact Hname; reflexivity. }
  split; [apply Hpip |]. split; [| split].
  - rewrite !Hpip. intros H. inversion H as [Hs].
    apply status_class_injective.
    apply (map_injective_on _ _ styles _ _ _ Hfive);
      [apply status_class_listed | apply status_class_listed | exact Hs].
  - unfold Feed.badge, Feed.classNames. cbn [Feed.classes_of].
    rewrite object_of_distinct.
    + destruct active; cbn [negb filter snd map fst];
        rewrite !named by exact Hname; reflexivity.
    + cbn [map fst]. constructor; [| constructor; [intros [] | constructor]].
      intros [H | []]. apply Htwo. symmetry. exact H.
  - destruct active; reflexivity.
Qed.

End FeedFacts.

Lemma pip_and_badge_classes_witness :
  Feed.classes_of
    (Feed.pip (fun name => ("feed_" ++ name)%string)
       {| id := "e9"; status := uploading; title := "Publish"; detail := None;
          timestamp := "t9"; meta := None |})
  = ["feed_pip"; "feed_uploading"]
  /\ Feed.classes_of (Feed.badge (fun name => ("feed_" ++ name)%string) true)
     = ["feed_badge"; "feed_running"].
Proof.
  assert (Hfive : NoDup (map (fun name => ("feed_" ++ name)%string)
                             ["success"; "error"; "progress"; "info"; "uploading"])).
  { repeat constructor; cbn; intuition discriminate. }
  assert (Htwo : ("feed_" ++ "running")%string <> ("feed_" ++ "idle")%string)
    by discriminate.
  assert (Hname : forall name : string, ("feed_" ++ name)%string <> EmptyString)
    by discriminate.
  destruct (pip_and_badge_classes (fun name => ("feed_" ++ name)%string)
              {| id := "e9"; status := uploading; title := "Publish"; detail := None;
                 timestamp := "t9"; meta := None |}
              {| id := "e9"; status := uploading; title := "Publish"; detail := None;
                 timestamp := "t9"; meta := None |}
              true Hfive Htwo Hname) as (Hp & _ & Hb & _).
  split; [exact Hp | exact Hb].
Defined.

(** A style sheet that gives two statuses one class: the later entry of
    the object decides, and the pip of an error shows no status class. *)
Example shared_class_is_lost :
  Feed.classes_of
    (Feed.pip (fun name => if String.eqb name "pip" then "pip" else "dot")
       {| id := "e1"; status := error; title := "Script"; detail := None;
          timestamp := "t1"; meta := None |})
  = ["pip"].
Proof. reflexivity. Qed.

(** ** Blank values on the two paths *)

Lemma tr_blank (s : string) : blank s = true -> tr (Js.Str s) = None.
Proof. intros H. unfold tr. rewrite (trim_blank s H). reflexivity. Qed.

(** X17: a value of nothing but white space is taken as missing by
    [coerceBody] and as given by [deriveFromEnv]: a blank key in a body
    becomes undefined and a blank topic the default topic, while the same
    texts in the environment reach the schema as they are. *)
Theorem blank_values_on_both_paths {runtime : Runtime}
        (body : Js.value) (env : ProcessEnv) (key topic : string) :
  blank key = true -> blank topic = true ->
  Js.get body "openaiKey" = Js.Str key ->
  Js.get body "videoTopic" = Js.Str topic ->
  OPENAI_API_KEY env = Some key ->
  PIPELINE_DEFAULT_TOPIC env = Some topic ->
  openaiKey (coerceBody body) = None
  /\ videoTopic (coerceBody body) = "Daily AI news round-up"
  /\ openaiKey (envRequest env) = Some key
  /\ videoTopic (envRequest env) = topic.
Proof.
  intros Hk Ht Hbk Hbt Hek Het.
  unfold coerceBody, envRequest;
    cbn [openaiKey videoTopic].
  rewrite Hbk, Hbt, Hek, Het, (tr_blank key Hk), (tr_blank topic Ht).
  repeat split.
Qed.

Lemma blank_values_on_both_paths_witness :
  openaiKey (@coerceBody sample_runtime
               (Js.Obj [("openaiKey", Js.Str "  "); ("videoTopic", Js.Str "")]))
  = None
  /\ videoTopic (@coerceBody sample_runtime
                   (Js.Obj [("openaiKey", Js.Str "  "); ("videoTopic", Js.Str "")]))
     = "Daily AI news round-up"
  /\ openaiKey (@envRequest sample_runtime (env_blank "  " "")) = Some "  "
  /\ videoTopic (@envRequest sample_runtime (env_blank "  " "")) = "".
Proof.
  exact (@blank_values_on_both_paths sample_runtime
           (Js.Obj [("openaiKey", Js.Str "  "); ("videoTopic", Js.Str "")])
           (env_blank "  " "") "  " "" eq_refl eq_refl eq_refl eq_refl
           eq_refl eq_refl).
Defined.
